(** * UCFunctionToolkit for LiteLLM: a shallow embedding of toolkit.py

    The development follows
    [ai/integrations/litellm/src/unitycatalog/ai/litellm/toolkit.py]:
    the converter [uc_function_to_litellm_tool], the callable [func] it
    closes over a client and a function name, the model validator
    [validate_toolkit] and the [tools] accessor.

    Python exceptions are the left summand of a result, the catalog service
    is an explicit state threaded through every call, and each call that
    reaches the catalog is logged, so that "before any catalog access" and
    "no retry" are statements about the log. *)

From Stdlib Require Import List String Ascii Bool ZArith Permutation.
From Stdlib Require Import DecimalString.
Import ListNotations.
Open Scope string_scope.

Set Implicit Arguments.
Set Maximal Implicit Insertion.
Set Warnings "-register-all".

(** ** Python values, as far as [func] handles them *)

(** Keys of a Python dict.  [json.dumps] accepts str, int, float, bool and
    None as keys and raises TypeError on any other key; [default] is never
    consulted for keys. A float is carried by its [repr]. *)
Inductive PyKey : Type :=
| KStr (s : string)
| KInt (z : Z)
| KFloat (repr : string)
| KBool (b : bool)
| KNone
| KOther (repr : string).

(** Values. [PObj s] is any object the JSON encoder does not know (a date,
    a Decimal, a set, ...); [s] is what [str] returns on it. A dict is its
    list of items in insertion order. *)
Inductive PyVal : Type :=
| PNone
| PBool (b : bool)
| PInt (z : Z)
| PFloat (repr : string)
| PStr (s : string)
| PList (l : list PyVal)
| PTuple (l : list PyVal)
| PDict (items : list (PyKey * PyVal))
| PObj (str : string).

(** A JSON document, the text [json.dumps] returns taken at the level of
    its syntax tree. An object may repeat a member name. *)
Inductive Json : Type :=
| JNull
| JBool (b : bool)
| JInt (z : Z)
| JFloat (repr : string)
| JString (s : string)
| JArray (l : list Json)
| JObject (members : list (string * Json)).

(** ** Exceptions *)

Inductive Exc : Type :=
| ValueError (msg : string)
| TypeError (msg : string)
| MissingClient
| UpstreamError (what : string).

Definition msg_only_one : string :=
  "Only one of function_name or function_info should be provided.".
Definition msg_either : string :=
  "Either function_name or function_info should be provided.".
Definition msg_no_function_names : string :=
  "Cannot create tool instances without function_names being provided.".
Definition msg_bad_key : string :=
  "keys must be str, int, float, bool or None".
Definition msg_invalid_name : string :=
  "Invalid function name".

(** The taxonomy of the specification over the exceptions raised here. *)
Definition InvalidArgument (e : Exc) : Prop :=
  e = ValueError msg_only_one \/ e = ValueError msg_either
  \/ e = ValueError msg_invalid_name.
Definition EmptyFunctionList (e : Exc) : Prop :=
  e = ValueError msg_no_function_names.

Definition result (A : Type) : Type := (Exc + A)%type.

(** ** json.dumps(..., default=str) and json.loads *)

Definition string_of_Z (z : Z) : string :=
  DecimalString.NilZero.string_of_int (Z.to_int z).

(** The member name the encoder writes for a dict key. *)
Definition json_key (k : PyKey) : result string :=
  match k with
  | KStr s => inr s
  | KInt z => inr (string_of_Z z)
  | KFloat r => inr r
  | KBool true => inr "true"
  | KBool false => inr "false"
  | KNone => inr "null"
  | KOther _ => inl (TypeError msg_bad_key)
  end.

(** Encoding the elements of a container in order; the first exception
    ends the encoding. *)
Definition traverse {A B : Type} (f : A -> result B) : list A -> result (list B) :=
  fix go (l : list A) : result (list B) :=
    match l with
    | [] => inr []
    | x :: r =>
        match f x with
        | inl e => inl e
        | inr y =>
            match go r with
            | inl e => inl e
            | inr ys => inr (y :: ys)
            end
        end
    end.

(** [json.dumps(v, default=str)]: a tuple is written as an array, and an
    object the encoder does not know is replaced by [str] of it, which is
    then written as a string. *)
Fixpoint json_dumps (v : PyVal) : result Json :=
  match v with
  | PNone => inr JNull
  | PBool b => inr (JBool b)
  | PInt z => inr (JInt z)
  | PFloat r => inr (JFloat r)
  | PStr s => inr (JString s)
  | PList l =>
      match traverse json_dumps l with
      | inl e => inl e
      | inr js => inr (JArray js)
      end
  | PTuple l =>
      match traverse json_dumps l with
      | inl e => inl e
      | inr js => inr (JArray js)
      end
  | PDict items =>
      match traverse (fun kv =>
                        match json_key (fst kv) with
                        | inl e => inl e
                        | inr s =>
                            match json_dumps (snd kv) with
                            | inl e => inl e
                            | inr j => inr (s, j)
                            end
                        end) items with
      | inl e => inl e
      | inr ms => inr (JObject ms)
      end
  | PObj s => inr (JString s)
  end.

(** [d[k] = v] on an insertion-ordered dict with string keys: an existing
    key keeps its place and takes the new value, a new key goes last. *)
Fixpoint dict_set {V : Type} (d : list (string * V)) (k : string) (v : V)
  : list (string * V) :=
  match d with
  | [] => [(k, v)]
  | (k', v') :: r =>
      if String.eqb k' k then (k', v) :: r else (k', v') :: dict_set r k v
  end.

Definition dict_of_pairs {V : Type} (ps : list (string * V)) : list (string * V) :=
  fold_left (fun d kv => dict_set d (fst kv) (snd kv)) ps [].

Fixpoint json_loads (j : Json) : PyVal :=
  match j with
  | JNull => PNone
  | JBool b => PBool b
  | JInt z => PInt z
  | JFloat r => PFloat r
  | JString s => PStr s
  | JArray l => PList (map json_loads l)
  | JObject ms =>
      PDict (map (fun kv => (KStr (fst kv), snd kv))
               (dict_of_pairs (map (fun kv => (fst kv, json_loads (snd kv))) ms)))
  end.


(** The values JSON has: None, bool, int, float, str, lists of such and
    dicts with str keys over such. *)
Fixpoint json_compatible (v : PyVal) : bool :=
  match v with
  | PNone | PBool _ | PInt _ | PFloat _ | PStr _ => true
  | PList l => forallb json_compatible l
  | PTuple _ => false
  | PDict items =>
      forallb (fun kv =>
                 match fst kv with
                 | KStr _ => json_compatible (snd kv)
                 | _ => false
                 end) items
  | PObj _ => false
  end.

(** What the specification says the serialization does, written on the
    value: an object JSON does not know becomes its string, a tuple becomes
    a list, and the rest is kept, part by part. *)
Fixpoint jsonify (v : PyVal) : PyVal :=
  match v with
  | PObj s => PStr s
  | PList l => PList (map jsonify l)
  | PTuple l => PList (map jsonify l)
  | PDict items => PDict (map (fun kv => (fst kv, jsonify (snd kv))) items)
  | _ => v
  end.

Definition key_str (k : PyKey) : string :=
  match k with
  | KStr s => s
  | _ => ""
  end.

Fixpoint distinct (l : list string) : bool :=
  match l with
  | [] => true
  | x :: r => negb (existsb (String.eqb x) r) && distinct r
  end.

(** Values all of whose dicts have str keys, pairwise different: the dicts
    JSON objects stand for. *)
Fixpoint str_keyed (v : PyVal) : bool :=
  match v with
  | PList l => forallb str_keyed l
  | PTuple l => forallb str_keyed l
  | PDict items =>
      forallb (fun kv =>
                 match fst kv with
                 | KStr _ => str_keyed (snd kv)
                 | _ => false
                 end) items
      && distinct (map (fun kv => key_str (fst kv)) items)
  | _ => true
  end.


(** [d.get(k)] on a dict with string keys. *)
Definition dict_get {V : Type} (d : list (string * V)) (k : string) : option V :=
  match find (fun kv => fst kv =? k) d with
  | Some kv => Some (snd kv)
  | None => None
  end.

(** The value of the last pair named [k], if there is one. *)
Fixpoint last_value {V : Type} (ps : list (string * V)) (k : string) : option V :=
  match ps with
  | [] => None
  | (k', v) :: r =>
      match last_value r k with
      | Some v' => Some v'
      | None => if k' =? k then Some v else None
      end
  end.

(** ** Descriptors of the catalog *)

(** [FunctionParameterInfo]: the name of a parameter, its declared type and
    its default, if it declares one. *)
Record FunctionParameterInfo : Type := mkParam {
  param_name : string;
  type_text : string;
  parameter_default : option string
}.

(** [FunctionInfo], the descriptor the client returns. The converter reads
    [full_name], [comment] and, through the schema utility, [input_params]. *)
Record FunctionInfo : Type := mkInfo {
  catalog_name : string;
  schema_name : string;
  short_name : string;
  full_name : string;
  comment : option string;
  input_params : option (list FunctionParameterInfo)
}.

(** What [execute_function] returns; the callable only asks it for
    [to_json()]. *)
Record FunctionExecutionResult : Type := mkResult {
  to_json : string
}.

(** ** Pydantic model classes and the tool definition *)

Inductive ModelClass : Type :=
| BaseModel
| create_model (cls_name : string) (fields : list FunctionParameterInfo)
| type_call (cls_name : string) (base : ModelClass).

Definition is_BaseModel (m : ModelClass) : bool :=
  match m with BaseModel => true | _ => false end.

Definition class_name (m : ModelClass) : string :=
  match m with
  | BaseModel => "BaseModel"
  | create_model n _ => n
  | type_call n _ => n
  end.

Fixpoint model_fields (m : ModelClass) : list FunctionParameterInfo :=
  match m with
  | BaseModel => []
  | create_model _ fs => fs
  | type_call _ base => model_fields base
  end.

(** [issubclass(m, b)] for the classes above. *)
Fixpoint issubclass (m b : ModelClass) : Prop :=
  m = b \/
  match m with
  | BaseModel => False
  | create_model _ _ => b = BaseModel
  | type_call _ base => issubclass base b
  end.

Record JsonSchema : Type := mkSchema {
  title : string;
  schema_type : string;
  properties : list (string * string);
  required : list string
}.

Definition has_default (p : FunctionParameterInfo) : bool :=
  match parameter_default p with Some _ => true | None => false end.

Definition model_json_schema (m : ModelClass) : JsonSchema :=
  {| title := class_name m;
     schema_type := "object";
     properties := map (fun p => (param_name p, type_text p)) (model_fields m);
     required := map param_name (filter (fun p => negb (has_default p)) (model_fields m)) |}.

(** The "function" member of an OpenAI tool definition. *)
Record FunctionDefinition : Type := mkFunctionDefinition {
  fd_name : string;
  fd_strict : bool;
  fd_parameters : JsonSchema;
  fd_description : string
}.

Record ToolDefinition : Type := mkToolDefinition {
  td_type : string;
  td_function : FunctionDefinition
}.

Definition msg_base_model : string :=
  "BaseModel itself has no schema, a subclass is required".

(** [openai.pydantic_function_tool]. As the comment in the converter says,
    the schema call behind it requires a subclass of [BaseModel]: the base
    class itself is refused. *)
Definition pydantic_function_tool (model : ModelClass) (name description : string)
  : result ToolDefinition :=
  if is_BaseModel model then inl (TypeError msg_base_model)
  else inr {| td_type := "function";
              td_function := {| fd_name := name;
                                fd_strict := true;
                                fd_parameters := model_json_schema model;
                                fd_description := description |} |}.

(** Modelled from the spec: [generate_function_input_params_schema] of the
    core utilities is not among the sources. The schema has one property per
    declared parameter and requires those without a default; with
    [input_params] None the utility returns [BaseModel] itself, as the
    converter's comment records. *)
Definition generate_function_input_params_schema (function_info : FunctionInfo)
  : ModelClass :=
  match input_params function_info with
  | None => BaseModel
  | Some ps =>
      create_model (catalog_name function_info ++ "__" ++ schema_name function_info
                      ++ "__" ++ short_name function_info ++ "__params") ps
  end.

(** ** Truthiness *)

(** [if function_name:] on an [Optional[str]]: None and the empty string
    are both false. *)
Definition truthy_str (o : option string) : bool :=
  match o with
  | Some s => negb (s =? "")
  | None => false
  end.

(** [if function_info:] on an optional descriptor: a descriptor object is
    always true. *)
Definition truthy_info (o : option FunctionInfo) : bool :=
  match o with
  | Some _ => true
  | None => false
  end.

(** [function_info.comment or ""] *)
Definition comment_or_empty (c : option string) : string :=
  if truthy_str c then match c with Some s => s | None => "" end else "".

(** ** The client, the world and the monad of effects *)

Section Model.

(** The state of the catalog service, whatever it is. *)
Variable S : Type.

(** [get_tool_name] of the core utilities: the sanitizer is an external
    collaborator, a pure function from the full name to the tool name. *)
Variable get_tool_name : string -> string.

(** [BaseFunctionClient]: every operation runs against the service, may
    change its state, and returns or raises. [expand_pattern] is the
    listing the specification calls [Client.expandPattern]. *)
Record BaseFunctionClient : Type := mkClient {
  get_function : string -> S -> result FunctionInfo * S;
  expand_pattern : string -> S -> result (list string) * S;
  execute_function : string -> PyVal -> S -> result FunctionExecutionResult * S
}.

(** The calls that reach the catalog. *)
Inductive Event : Type :=
| GetFunction (function_name : string)
| ExpandPattern (pattern : string)
| ExecuteFunction (function_name : string) (parameters : PyVal).

Record World : Type := mkWorld {
  server : S;
  default_client : option BaseFunctionClient;
  log : list Event
}.

Definition M (A : Type) : Type := World -> result A * World.

Definition ret {A : Type} (a : A) : M A := fun w => (inr a, w).

Definition raise {A : Type} (e : Exc) : M A := fun w => (inl e, w).

Definition bind {A B : Type} (m : M A) (k : A -> M B) : M B :=
  fun w =>
    match m w with
    | (inl e, w') => (inl e, w')
    | (inr a, w') => k a w'
    end.

Definition lift {A : Type} (r : result A) : M A :=
  match r with
  | inl e => raise e
  | inr a => ret a
  end.

(** A call to the service: logged, then run on the service's state. *)
Definition call {A : Type} (ev : Event) (op : S -> result A * S) : M A :=
  fun w =>
    let (r, s') := op (server w) in
    (r, {| server := s'; default_client := default_client w; log := (log w ++ [ev])%list |}).

Notation "x <- m ;; k" := (bind m (fun x => k))
  (at level 61, m at next level, right associativity).

(** Modelled from the spec: [validate_or_set_default_client] of the core
    utilities is not among the sources. If no client is supplied the
    process-wide default is taken; with none configured either, it fails
    with MissingClient. It does not touch the catalog. *)
Definition validate_or_set_default_client (client : option BaseFunctionClient)
  : M BaseFunctionClient :=
  fun w =>
    match client with
    | Some c => (inr c, w)
    | None =>
        match default_client w with
        | Some c => (inr c, w)
        | None => (inl MissingClient, w)
        end
    end.

(** ** LiteLLMTool *)

Record LiteLLMTool : Type := mkLiteLLMTool {
  fn : list (string * PyVal) -> M string;
  name : string;
  description : string;
  tool : ToolDefinition
}.

Definition to_dict (self : LiteLLMTool) : ToolDefinition := tool self.

(** ** The converter *)

(** [kwargs] as the dict Python builds for [**kwargs]: its keys are str. *)
Definition kwargs_dict (kwargs : list (string * PyVal)) : PyVal :=
  PDict (map (fun kv => (KStr (fst kv), snd kv)) kwargs).

(** [json.loads(json.dumps(kwargs, default=str))] *)
Definition args_json_of (kwargs : list (string * PyVal)) : result PyVal :=
  match json_dumps (kwargs_dict kwargs) with
  | inl e => inl e
  | inr j => inr (json_loads j)
  end.

(** The closure [func] of the converter, over [client] and
    [function_name]. *)
Definition func (client : BaseFunctionClient) (function_name : string)
  (kwargs : list (string * PyVal)) : M string :=
  args_json <- lift (args_json_of kwargs) ;;
  result <- call (ExecuteFunction function_name args_json)
              (execute_function client function_name args_json) ;;
  ret (to_json result).

(** Lines 100-105: the descriptor and the name the rest works with. *)
Definition resolve_function (client : BaseFunctionClient)
  (function_name : option string) (function_info : option FunctionInfo)
  : M (string * FunctionInfo) :=
  if truthy_str function_name then
    let n := match function_name with Some n => n | None => "" end in
    fi <- call (GetFunction n) (get_function client n) ;;
    ret (n, fi)
  else
    match function_info with
    | Some fi => ret (full_name fi, fi)
    | None => raise (ValueError msg_either)
    end.

(** Lines 107-115: the model handed to [pydantic_function_tool]. *)
Definition litellm_model (function_info : FunctionInfo) : ModelClass :=
  let generated_model := generate_function_input_params_schema function_info in
  if is_BaseModel generated_model
  then type_call "BaseModelWrapper" generated_model
  else generated_model.

Definition uc_function_to_litellm_tool (client : option BaseFunctionClient)
  (function_name : option string) (function_info : option FunctionInfo)
  : M LiteLLMTool :=
  if truthy_str function_name && truthy_info function_info
  then raise (ValueError msg_only_one)
  else
    client <- validate_or_set_default_client client ;;
    nf <- resolve_function client function_name function_info ;;
    let function_name := fst nf in
    let function_info := snd nf in
    let generated_model := litellm_model function_info in
    tool <- lift (pydantic_function_tool generated_model
                    (get_tool_name function_name)
                    (comment_or_empty (comment function_info))) ;;
    ret {| fn := func client function_name;
           name := get_tool_name function_name;
           description := comment_or_empty (comment function_info);
           tool := tool |}.

(** ** UCFunctionToolkit *)

Definition Dict : Type := list (string * LiteLLMTool).

Record UCFunctionToolkit : Type := mkToolkit {
  function_names : list string;
  tools_dict : Dict;
  client : option BaseFunctionClient
}.

(** [str.split(".")] *)
Fixpoint split_dot (s : string) : list string :=
  match s with
  | EmptyString => [EmptyString]
  | String c r =>
      if (c =? ".")%char then EmptyString :: split_dot r
      else
        match split_dot r with
        | h :: t => String c h :: t
        | [] => [String c EmptyString]
        end
  end.

Inductive Entry : Type :=
| Concrete
| Wildcard.

(** Modelled from the spec: an entry of [function_names] is a concrete
    [catalog.schema.fn] or a wildcard [catalog.schema.*]; anything else is
    a malformed pattern, an InvalidArgument. *)
Definition classify_entry (n : string) : result Entry :=
  match split_dot n with
  | [_; _; f] => inr (if f =? "*" then Wildcard else Concrete)
  | _ => inl (ValueError msg_invalid_name)
  end.

(** Modelled from the spec: step 3 of the toolkit, pattern expansion. The
    expansion of wildcards is the client's. *)
Fixpoint expand_function_names (client : BaseFunctionClient) (names : list string)
  : M (list string) :=
  match names with
  | [] => ret []
  | n :: rest =>
      e <- lift (classify_entry n) ;;
      ns <- match e with
            | Concrete => ret [n]
            | Wildcard => call (ExpandPattern n) (expand_pattern client n)
            end ;;
      more <- expand_function_names client rest ;;
      ret (ns ++ more)%list
  end.

(** Duplicates are dropped by name; the first occurrence keeps its place. *)
Fixpoint dedup (l : list string) : list string :=
  match l with
  | [] => []
  | x :: r => x :: filter (fun y => negb (y =? x)) (dedup r)
  end.

(** Modelled from the spec: step 4 of the toolkit, each resolved name goes
    to the converter with the same client, and the results accumulate in
    the mapping in resolution order. *)
Fixpoint convert_function_names (client : BaseFunctionClient)
  (uc_function_to_tool_func :
     option BaseFunctionClient -> option string -> option FunctionInfo -> M LiteLLMTool)
  (names : list string) (tools_dict : Dict) : M Dict :=
  match names with
  | [] => ret tools_dict
  | n :: rest =>
      t <- uc_function_to_tool_func (Some client) (Some n) None ;;
      convert_function_names client uc_function_to_tool_func rest (dict_set tools_dict n t)
  end.

(** Modelled from the spec: [process_function_names] of the core utilities
    is not among the sources; it is steps 3 and 4 of the toolkit. *)
Definition process_function_names (function_names : list string) (tools_dict : Dict)
  (client : BaseFunctionClient)
  (uc_function_to_tool_func :
     option BaseFunctionClient -> option string -> option FunctionInfo -> M LiteLLMTool)
  : M Dict :=
  resolved <- expand_function_names client function_names ;;
  convert_function_names client uc_function_to_tool_func (dedup resolved) tools_dict.

(** The model validator, run by the constructor after the fields are set.
    It assigns [client] and [tools_dict] on [self]; the toolkit the
    constructor hands out is [self] after these assignments, and an
    exception raised on the way leaves the caller without the object. *)
Definition validate_toolkit (self : UCFunctionToolkit) : M UCFunctionToolkit :=
  c <- validate_or_set_default_client (client self) ;;
  match function_names self with
  | [] => raise (ValueError msg_no_function_names)
  | _ :: _ =>
      d <- process_function_names (function_names self) (tools_dict self) c
             uc_function_to_litellm_tool ;;
      ret {| function_names := function_names self;
             tools_dict := d;
             client := Some c |}
  end.

(** [UCFunctionToolkit(function_names=..., client=...)]: [tools_dict] takes
    its default, the empty dict. *)
Definition new_toolkit (function_names : list string)
  (client : option BaseFunctionClient) : M UCFunctionToolkit :=
  validate_toolkit {| function_names := function_names;
                      tools_dict := [];
                      client := client |}.

(** The [tools] property: [list(self.tools_dict.values())]. *)
Definition tools (self : UCFunctionToolkit) : list LiteLLMTool :=
  map snd (tools_dict self).

End Model.

Arguments mkWorld {S} _ _ _.

(** ** Notions the statements use *)

(** The tool the converter builds once the client, the name and the
    descriptor are settled. *)
Definition built_tool (S : Type) (get_tool_name : string -> string)
  (c : BaseFunctionClient S) (n : string) (fi : FunctionInfo) : LiteLLMTool S :=
  {| fn := func c n;
     name := get_tool_name n;
     description := comment_or_empty (comment fi);
     tool := {| td_type := "function";
                td_function :=
                  {| fd_name := get_tool_name n;
                     fd_strict := true;
                     fd_parameters := model_json_schema (litellm_model fi);
                     fd_description := comment_or_empty (comment fi) |} |} |}.

(** Two tools that cannot be told apart: same name, same description, same
    tool definition, and callables that do the same on the same arguments
    in the same world. *)
Definition same_tool (S : Type) (t1 t2 : LiteLLMTool S) : Prop :=
  name t1 = name t2 /\
  description t1 = description t2 /\
  tool t1 = tool t2 /\
  forall kwargs w, fn t1 kwargs w = fn t2 kwargs w.

(** The entry the conversion of [k] leaves in the mapping: the tool built
    from a descriptor the catalog returned for [k]. *)
Definition entry_of (S : Type) (gtn : string -> string) (c : BaseFunctionClient S)
  (k : string) (kt : string * LiteLLMTool S) : Prop :=
  fst kt = k /\
  exists fi s, fst (get_function c k s) = inr fi /\ snd kt = built_tool gtn c k fi.

(** A descriptor without parameters: no [input_params], or an empty list. *)
Definition declares_no_parameters (fi : FunctionInfo) : Prop :=
  input_params fi = None \/ input_params fi = Some [].

(** ** A small catalog to run the definitions on *)

Module Demo.

(** The double quote, for JSON texts. *)
Definition dq : string := String (ascii_of_nat 34) EmptyString.

(** The sanitizer of the demonstration: every dot becomes two underscores. *)
Fixpoint get_tool_name (s : string) : string :=
  match s with
  | EmptyString => EmptyString
  | String c r =>
      if (c =? ".")%char then String "_" (String "_" (get_tool_name r))
      else String c (get_tool_name r)
  end.

(** [catalog.schema.add(a: int, b: int)], "adds two numbers". *)
Definition add_info : FunctionInfo :=
  {| catalog_name := "catalog"; schema_name := "schema"; short_name := "add";
     full_name := "catalog.schema.add";
     comment := Some "adds two numbers";
     input_params := Some [mkParam "a" "int" None; mkParam "b" "int" None] |}.

(** [catalog.schema.ping()], without parameters and without a comment. *)
Definition ping_info : FunctionInfo :=
  {| catalog_name := "catalog"; schema_name := "schema"; short_name := "ping";
     full_name := "catalog.schema.ping";
     comment := None;
     input_params := None |}.

(** [catalog.schema.echo(x: string)], without a comment. *)
Definition echo_info : FunctionInfo :=
  {| catalog_name := "catalog"; schema_name := "schema"; short_name := "echo";
     full_name := "catalog.schema.echo";
     comment := None;
     input_params := Some [mkParam "x" "string" None] |}.

(** The service counts the executions it has served. *)
Definition client : BaseFunctionClient nat :=
  {| get_function := fun n s =>
       if n =? "catalog.schema.add" then (inr add_info, s)
       else if n =? "catalog.schema.ping" then (inr ping_info, s)
       else if n =? "catalog.schema.echo" then (inr echo_info, s)
       else (inl (UpstreamError "function not found"), s);
     expand_pattern := fun p s =>
       if p =? "catalog.schema.*"
       then (inr ["catalog.schema.add"; "catalog.schema.ping"], s)
       else (inr [], s);
     execute_function := fun n args s =>
       match args with
       | PDict [(KStr "a", PInt a); (KStr "b", PInt b)] =>
           (inr {| to_json := "{" ++ dq ++ "value" ++ dq ++ ": "
                                ++ string_of_Z (a + b) ++ "}" |}, Datatypes.S s)
       | PDict [(KStr "x", PStr x)] =>
           (inr {| to_json := "{" ++ dq ++ "value" ++ dq ++ ": "
                                ++ dq ++ x ++ dq ++ "}" |}, Datatypes.S s)
       | PDict [] =>
           (inr {| to_json := "{" ++ dq ++ "value" ++ dq ++ ": "
                                ++ string_of_Z (Z.of_nat s) ++ "}" |}, Datatypes.S s)
       | _ => (inl (UpstreamError "bad parameters"), s)
       end |}.

(** A process with no default client configured, and one with [client]. *)
Definition w_none : World nat := mkWorld 0%nat None [].
Definition w_default : World nat := mkWorld 0%nat (Some client) [].

End Demo.

(** ** The definitions at work *)

(** The example of the specification: [catalog.schema.add], converted by
    name and called with [a=1, b=2]. *)
Example add_by_name :
  match uc_function_to_litellm_tool Demo.get_tool_name (Some Demo.client)
          (Some "catalog.schema.add") None Demo.w_none with
  | (inr t, w) =>
      name t = "catalog__schema__add"
      /\ description t = "adds two numbers"
      /\ required (fd_parameters (td_function (tool t))) = ["a"; "b"]
      /\ log w = [GetFunction "catalog.schema.add"]
      /\ fst (fn t [("a", PInt 1); ("b", PInt 2)] w)
         = inr ("{" ++ Demo.dq ++ "value" ++ Demo.dq ++ ": 3}")
  | (inl _, _) => False
  end.
Proof. simpl. repeat split; reflexivity. Qed.

(** Dict keys on the way through JSON: an int key becomes its decimal
    string, a later member of the same name wins and keeps the place of the
    first, and a key JSON cannot take raises. *)
Example keys_through_json :
  args_json_of [("d", PDict [(KInt 1, PStr "one"); (KStr "1", PNone);
                             (KBool true, PInt (-5))])]
  = inr (PDict [(KStr "d", PDict [(KStr "1", PNone); (KStr "true", PInt (-5))])])
  /\ args_json_of [("d", PDict [(KOther "(1, 2)", PInt 0)])]
     = inl (TypeError msg_bad_key).
Proof. split; reflexivity. Qed.

Example split_dot_examples :
  split_dot "catalog.schema.fn" = ["catalog"; "schema"; "fn"]
  /\ classify_entry "catalog.schema.*" = inr Wildcard
  /\ classify_entry "catalog.schema" = inl (ValueError msg_invalid_name)
  /\ dedup ["b"; "a"; "b"; "c"; "a"] = ["b"; "a"; "c"].
Proof. repeat split; reflexivity. Qed.

(** ** Running the monad *)

Unset Implicit Arguments.

Ltac run_monad :=
  unfold uc_function_to_litellm_tool, resolve_function, bind, ret, raise, lift, call
    in *; simpl in *.

Lemma validate_or_set_default_client_world (S : Type)
  (client : option (BaseFunctionClient S)) (w w' : World S)
  (r : result (BaseFunctionClient S)) :
  validate_or_set_default_client client w = (r, w') -> w' = w.
Proof.
  unfold validate_or_set_default_client.
  destruct client; [ | destruct (default_client w) ]; intros H; inversion H; reflexivity.
Qed.

Lemma validate_or_set_default_client_error (S : Type)
  (client : option (BaseFunctionClient S)) (w w' : World S) (e : Exc) :
  validate_or_set_default_client client w = (inl e, w') ->
  e = MissingClient /\ client = None /\ default_client w = None.
Proof.
  unfold validate_or_set_default_client.
  destruct client; [ | destruct (default_client w) ]; intros H; inversion H; auto.
Qed.

Lemma truthy_str_true (o : option string) :
  truthy_str o = true <-> exists n, o = Some n /\ n <> "".
Proof.
  destruct o as [n | ]; simpl; split.
  - intros H. exists n. split; [ reflexivity | ].
    intros ->. discriminate H.
  - intros [m [E Hm]]. inversion E; subst m.
    destruct (String.eqb_spec n ""); [ contradiction | reflexivity ].
  - discriminate.
  - intros [m [E _]]. discriminate E.
Qed.

Lemma truthy_info_true (o : option FunctionInfo) :
  truthy_info o = true <-> exists fi, o = Some fi.
Proof.
  destruct o as [fi | ]; simpl; split; intros H; try discriminate.
  - exists fi; reflexivity.
  - reflexivity.
  - destruct H as [fi E]; discriminate E.
Qed.

(** The model handed to [pydantic_function_tool] is never [BaseModel]. *)
Lemma litellm_model_not_BaseModel (fi : FunctionInfo) :
  is_BaseModel (litellm_model fi) = false.
Proof.
  unfold litellm_model.
  destruct (is_BaseModel (generate_function_input_params_schema fi)) eqn:E.
  - reflexivity.
  - exact E.
Qed.

Lemma pydantic_function_tool_litellm_model (fi : FunctionInfo) (n d : string) :
  pydantic_function_tool (litellm_model fi) n d =
  inr {| td_type := "function";
         td_function := {| fd_name := n;
                           fd_strict := true;
                           fd_parameters := model_json_schema (litellm_model fi);
                           fd_description := d |} |}.
Proof.
  unfold pydantic_function_tool.
  rewrite litellm_model_not_BaseModel. reflexivity.
Qed.

(** With a descriptor and no usable name, the converter returns at once. *)
Lemma convert_by_descriptor (S : Type) (gtn : string -> string)
  (client : option (BaseFunctionClient S)) (c : BaseFunctionClient S)
  (function_name : option string) (fi : FunctionInfo) (w : World S) :
  validate_or_set_default_client client w = (inr c, w) ->
  truthy_str function_name = false ->
  uc_function_to_litellm_tool gtn client function_name (Some fi) w
  = (inr (built_tool gtn c (full_name fi) fi), w).
Proof.
  intros Hc Hn. run_monad. rewrite Hn. simpl. rewrite Hc. simpl.
  rewrite pydantic_function_tool_litellm_model. reflexivity.
Qed.

(** With a non-empty name and no descriptor, the converter fetches the
    descriptor, once, and builds the tool from what it gets. *)
Lemma convert_by_name (S : Type) (gtn : string -> string)
  (client : option (BaseFunctionClient S)) (c : BaseFunctionClient S)
  (n : string) (w : World S) :
  validate_or_set_default_client client w = (inr c, w) ->
  n <> "" ->
  uc_function_to_litellm_tool gtn client (Some n) None w
  = (match fst (get_function c n (server w)) with
     | inl e => inl e
     | inr fi => inr (built_tool gtn c n fi)
     end,
     mkWorld (snd (get_function c n (server w))) (default_client w)
       (log w ++ [GetFunction n])).
Proof.
  intros Hc Hn. run_monad.
  destruct (String.eqb_spec n ""); [ contradiction | ]. simpl.
  rewrite Hc. simpl.
  destruct (get_function c n (server w)) as [[e | fi] s']; simpl.
  - reflexivity.
  - rewrite pydantic_function_tool_litellm_model. reflexivity.
Qed.

(** ** The validation of the converter's arguments *)

(** C1, as the code has it. A non-empty [function_name] together with a
    [function_info] fails with "Only one of ..." (InvalidArgument) before the
    client is resolved and before any catalog access. With neither a
    non-empty [function_name] nor a [function_info] the call fails before
    any catalog access, with "Either ..." (InvalidArgument) when a client is
    supplied or configured, with MissingClient otherwise. With exactly one
    of the two and a client, the call passes the validation: it goes on to
    fetch the descriptor by name, or returns the tool of the descriptor. *)
Theorem uc_function_to_litellm_tool_validation (S : Type) (gtn : string -> string)
  (client : option (BaseFunctionClient S))
  (function_name : option string) (function_info : option FunctionInfo)
  (w : World S) :
  (truthy_str function_name = true -> truthy_info function_info = true ->
   uc_function_to_litellm_tool gtn client function_name function_info w
   = (inl (ValueError msg_only_one), w))
  /\
  (truthy_str function_name = false -> truthy_info function_info = false ->
   uc_function_to_litellm_tool gtn client function_name function_info w
   = (inl (match fst (validate_or_set_default_client client w) with
           | inl _ => MissingClient
           | inr _ => ValueError msg_either
           end), w))
  /\
  (forall c n,
     validate_or_set_default_client client w = (inr c, w) ->
     function_name = Some n -> n <> "" -> function_info = None ->
     log (snd (uc_function_to_litellm_tool gtn client function_name function_info w))
     = (log w ++ [GetFunction n])%list)
  /\
  (forall c fi,
     validate_or_set_default_client client w = (inr c, w) ->
     truthy_str function_name = false -> function_info = Some fi ->
     exists t,
       uc_function_to_litellm_tool gtn client function_name function_info w
       = (inr t, w)).
Proof.
  split; [ | split; [ | split ] ].
  - intros Hn Hi. unfold uc_function_to_litellm_tool. rewrite Hn, Hi. reflexivity.
  - intros Hn Hi. run_monad. rewrite Hn. simpl.
    destruct function_info as [fi | ]; [ discriminate Hi | ].
    destruct (validate_or_set_default_client client w) as [[e | c] w'] eqn:Hc; simpl.
    + destruct (validate_or_set_default_client_error _ _ _ _ _ Hc) as [-> _].
      rewrite (validate_or_set_default_client_world _ _ _ _ _ Hc). reflexivity.
    + rewrite (validate_or_set_default_client_world _ _ _ _ _ Hc). reflexivity.
  - intros c n Hc -> Hn ->.
    rewrite (convert_by_name _ gtn _ _ _ _ Hc Hn). reflexivity.
  - intros c fi Hc Hn ->.
    rewrite (convert_by_descriptor _ gtn _ _ _ fi _ Hc Hn). eexists; reflexivity.
Qed.

Lemma uc_function_to_litellm_tool_validation_witness :
  uc_function_to_litellm_tool Demo.get_tool_name (Some Demo.client)
    (Some "catalog.schema.add") (Some Demo.add_info) Demo.w_none
  = (inl (ValueError msg_only_one), Demo.w_none)
  /\
  uc_function_to_litellm_tool Demo.get_tool_name None None None Demo.w_default
  = (inl (ValueError msg_either), Demo.w_default)
  /\
  log (snd (uc_function_to_litellm_tool Demo.get_tool_name (Some Demo.client)
              (Some "catalog.schema.add") None Demo.w_none))
  = [GetFunction "catalog.schema.add"]
  /\
  exists t,
    uc_function_to_litellm_tool Demo.get_tool_name (Some Demo.client)
      None (Some Demo.ping_info) Demo.w_none
    = (inr t, Demo.w_none).
Proof.
  split; [ | split; [ | split ] ].
  - apply (proj1 (uc_function_to_litellm_tool_validation nat Demo.get_tool_name
                    (Some Demo.client) (Some "catalog.schema.add")
                    (Some Demo.add_info) Demo.w_none)); reflexivity.
  - apply (proj1 (proj2 (uc_function_to_litellm_tool_validation nat Demo.get_tool_name
                           None None None Demo.w_default))); reflexivity.
  - apply (proj1 (proj2 (proj2 (uc_function_to_litellm_tool_validation
                                      nat Demo.get_tool_name (Some Demo.client)
                                  (Some "catalog.schema.add") None Demo.w_none)))
             Demo.client "catalog.schema.add");
      [ reflexivity | reflexivity | discriminate | reflexivity ].
  - apply (proj2 (proj2 (proj2 (uc_function_to_litellm_tool_validation
                                      nat Demo.get_tool_name (Some Demo.client)
                                  None (Some Demo.ping_info) Demo.w_none)))
             Demo.client Demo.ping_info); reflexivity.
Defined.

(** C1 as stated fails twice. An empty-string [function_name] supplied
    together with a descriptor is not refused: the call returns the tool of
    the descriptor. And with neither argument and no client to be had, the
    error is MissingClient, raised before the argument check is reached. *)
Lemma uc_function_to_litellm_tool_both_supplied_accepted :
  (exists t,
     uc_function_to_litellm_tool Demo.get_tool_name (Some Demo.client)
       (Some "") (Some Demo.add_info) Demo.w_none = (inr t, Demo.w_none)
     /\ name t = "catalog__schema__add")
  /\
  uc_function_to_litellm_tool Demo.get_tool_name None None None Demo.w_none
  = (inl MissingClient, Demo.w_none).
Proof.
  split.
  - eexists. split; reflexivity.
  - reflexivity.
Qed.

(** C10. The check tests truthiness, not presence. With an empty-string
    [function_name], a descriptor and a client, the "Only one ..." error is
    not raised and the call proceeds with the descriptor, exactly as if
    [function_name] had been None; with an empty-string [function_name] and
    no descriptor, the "Either ..." error is raised although
    [function_name] was supplied. *)
Theorem uc_function_to_litellm_tool_truthiness (S : Type) (gtn : string -> string)
  (client : option (BaseFunctionClient S)) (c : BaseFunctionClient S)
  (fi : FunctionInfo) (w : World S) :
  validate_or_set_default_client client w = (inr c, w) ->
  uc_function_to_litellm_tool gtn client (Some "") (Some fi) w
  = (inr (built_tool gtn c (full_name fi) fi), w)
  /\ uc_function_to_litellm_tool gtn client (Some "") (Some fi) w
     = uc_function_to_litellm_tool gtn client None (Some fi) w
  /\ uc_function_to_litellm_tool gtn client (Some "") None w
     = (inl (ValueError msg_either), w).
Proof.
  intros Hc. split; [ | split ].
  - apply (convert_by_descriptor _ gtn _ _ (Some "") fi _ Hc). reflexivity.
  - rewrite (convert_by_descriptor _ gtn _ _ (Some "") fi _ Hc) by reflexivity.
    rewrite (convert_by_descriptor _ gtn _ _ None fi _ Hc) by reflexivity.
    reflexivity.
  - run_monad. rewrite Hc. reflexivity.
Qed.

Lemma uc_function_to_litellm_tool_truthiness_witness :
  uc_function_to_litellm_tool Demo.get_tool_name (Some Demo.client)
    (Some "") (Some Demo.add_info) Demo.w_none
  = (inr (built_tool Demo.get_tool_name Demo.client "catalog.schema.add"
            Demo.add_info), Demo.w_none)
  /\ uc_function_to_litellm_tool Demo.get_tool_name (Some Demo.client)
       (Some "") None Demo.w_none
     = (inl (ValueError msg_either), Demo.w_none).
Proof.
  pose proof (@uc_function_to_litellm_tool_truthiness nat Demo.get_tool_name
                (Some Demo.client) Demo.client Demo.add_info Demo.w_none eq_refl)
    as [H1 [_ H3]].
  split; [ exact H1 | exact H3 ].
Defined.

(** ** The empty-list guard of the toolkit *)

(** C2, as the code has it. With [function_names] empty the construction
    always fails and touches nothing; the error is EmptyFunctionList when a
    client is supplied or a default client is configured, and MissingClient
    when there is neither, because the client is resolved first. *)
Theorem validate_toolkit_empty_function_names (S : Type) (gtn : string -> string)
  (client : option (BaseFunctionClient S)) (d : Dict S) (w : World S) :
  validate_toolkit gtn {| function_names := []; tools_dict := d; client := client |} w
  = (inl (match client, default_client w with
          | None, None => MissingClient
          | _, _ => ValueError msg_no_function_names
          end), w)
  /\ new_toolkit gtn [] client w
     = (inl (match client, default_client w with
             | None, None => MissingClient
             | _, _ => ValueError msg_no_function_names
             end), w).
Proof.
  unfold new_toolkit, validate_toolkit, bind, raise, validate_or_set_default_client.
  simpl.
  destruct client as [c | ]; [ | destruct (default_client w) as [c | ] ];
    split; reflexivity.
Qed.

(** C2 as stated fails: without a client and without a default client, the
    empty list is answered with MissingClient, not EmptyFunctionList. *)
Lemma new_toolkit_empty_without_client :
  new_toolkit Demo.get_tool_name [] None Demo.w_none = (inl MissingClient, Demo.w_none)
  /\ ~ EmptyFunctionList MissingClient.
Proof.
  split.
  - reflexivity.
  - unfold EmptyFunctionList. discriminate.
Qed.

(** ** What a successful conversion has done *)

Lemma comment_or_empty_spec (c : option string) :
  comment_or_empty c = match c with Some s => s | None => "" end.
Proof.
  unfold comment_or_empty. destruct c as [s | ]; simpl; [ | reflexivity ].
  destruct (String.eqb_spec s ""); simpl; [ symmetry; assumption | reflexivity ].
Qed.

(** A conversion that returns a tool went one of two ways: by name, with
    one fetch that succeeded, or by descriptor, with no catalog access. *)
Lemma convert_inv (S : Type) (gtn : string -> string)
  (client : option (BaseFunctionClient S))
  (function_name : option string) (function_info : option FunctionInfo)
  (w w' : World S) (t : LiteLLMTool S) :
  uc_function_to_litellm_tool gtn client function_name function_info w = (inr t, w') ->
  exists c,
    validate_or_set_default_client client w = (inr c, w) /\
    ((exists n fi,
        function_name = Some n /\ n <> "" /\ function_info = None /\
        fst (get_function c n (server w)) = inr fi /\
        t = built_tool gtn c n fi /\
        w' = mkWorld (snd (get_function c n (server w))) (default_client w)
               (log w ++ [GetFunction n]))
     \/
     (exists fi,
        truthy_str function_name = false /\ function_info = Some fi /\
        t = built_tool gtn c (full_name fi) fi /\ w' = w)).
Proof.
  intros H.
  destruct (truthy_str function_name) eqn:Hn.
  - destruct function_info as [fi | ].
    + unfold uc_function_to_litellm_tool in H. rewrite Hn in H. simpl in H.
      discriminate H.
    + destruct (proj1 (truthy_str_true _) Hn) as [n [-> Hne]].
      destruct (validate_or_set_default_client client w) as [[e | c] w1] eqn:Hc.
      * run_monad. rewrite Hn in H. simpl in H. rewrite Hc in H. discriminate H.
      * pose proof (validate_or_set_default_client_world _ _ _ _ _ Hc) as ->.
        rewrite (convert_by_name _ gtn _ _ _ _ Hc Hne) in H.
        exists c. split; [ reflexivity | left ].
        destruct (fst (get_function c n (server w))) as [e | fi] eqn:Hg;
          [ discriminate H | ].
        inversion H; subst. exists n, fi. repeat split; auto.
  - destruct (validate_or_set_default_client client w) as [[e | c] w1] eqn:Hc.
    + run_monad. rewrite Hn in H. simpl in H. rewrite Hc in H. discriminate H.
    + pose proof (validate_or_set_default_client_world _ _ _ _ _ Hc) as ->.
      destruct function_info as [fi | ].
      * rewrite (convert_by_descriptor _ gtn _ _ _ fi _ Hc Hn) in H.
        inversion H; subst. exists c. split; [ reflexivity | right ].
        exists fi. repeat split; auto.
      * run_monad. rewrite Hn in H. simpl in H. rewrite Hc in H. discriminate H.
Qed.

(** ** Description, fetch and derived name *)

(** C8. The description of a produced tool is the comment of the
    descriptor, verbatim, when there is one, and the empty string when
    there is none; the tool definition carries the same text. The
    descriptor is the one supplied or, by name, the one the client
    returned. *)
Theorem tool_description_is_comment (S : Type) (gtn : string -> string)
  (client : option (BaseFunctionClient S))
  (function_name : option string) (function_info : option FunctionInfo)
  (w w' : World S) (t : LiteLLMTool S) :
  uc_function_to_litellm_tool gtn client function_name function_info w = (inr t, w') ->
  exists fi,
    (if truthy_str function_name
     then exists c n,
         validate_or_set_default_client client w = (inr c, w) /\
         function_name = Some n /\
         fst (get_function c n (server w)) = inr fi
     else function_info = Some fi)
    /\ description t = match comment fi with Some s => s | None => "" end
    /\ fd_description (td_function (tool t)) = description t.
Proof.
  intros H.
  destruct (convert_inv _ _ _ _ _ _ _ _ H)
    as [c [Hc [[n [fi [-> [Hne [-> [Hg [-> _]]]]]]] | [fi [Hn [-> [-> _]]]]]]].
  - exists fi. split; [ | split ].
    + rewrite (proj2 (truthy_str_true (Some n))) by (exists n; auto).
      exists c, n. auto.
    + simpl. apply comment_or_empty_spec.
    + reflexivity.
  - exists fi. split; [ | split ].
    + rewrite Hn. reflexivity.
    + simpl. apply comment_or_empty_spec.
    + reflexivity.
Qed.

Lemma tool_description_is_comment_witness :
  exists fi,
    Some Demo.ping_info = Some fi
    /\ description (built_tool Demo.get_tool_name Demo.client "catalog.schema.ping"
                      Demo.ping_info)
       = match comment fi with Some s => s | None => "" end
    /\ fd_description (td_function (tool (built_tool Demo.get_tool_name Demo.client
                                             "catalog.schema.ping" Demo.ping_info)))
       = description (built_tool Demo.get_tool_name Demo.client "catalog.schema.ping"
                        Demo.ping_info).
Proof.
  exact (@tool_description_is_comment nat Demo.get_tool_name (Some Demo.client)
           None (Some Demo.ping_info) Demo.w_none Demo.w_none
           (built_tool Demo.get_tool_name Demo.client "catalog.schema.ping"
              Demo.ping_info) eq_refl).
Defined.

(** C9. Given a (non-empty) [function_name], the descriptor is fetched
    from the client, once: if the fetch raises, the converter raises the
    same exception and has made no other call; if it returns, the tool is
    built from what it returned. Given the descriptor instead, the name the
    tool is bound to is the descriptor's [full_name], and the client is not
    asked. *)
Theorem uc_function_to_litellm_tool_fetch_or_derive (S : Type)
  (gtn : string -> string)
  (client : option (BaseFunctionClient S)) (c : BaseFunctionClient S)
  (w : World S) :
  validate_or_set_default_client client w = (inr c, w) ->
  (forall n, n <> "" ->
     (forall e s', get_function c n (server w) = (inl e, s') ->
        uc_function_to_litellm_tool gtn client (Some n) None w
        = (inl e, mkWorld s' (default_client w) (log w ++ [GetFunction n])))
     /\
     (forall fi s', get_function c n (server w) = (inr fi, s') ->
        uc_function_to_litellm_tool gtn client (Some n) None w
        = (inr (built_tool gtn c n fi),
           mkWorld s' (default_client w) (log w ++ [GetFunction n]))))
  /\
  (forall fi,
     uc_function_to_litellm_tool gtn client None (Some fi) w
     = (inr (built_tool gtn c (full_name fi) fi), w)
     /\ name (built_tool gtn c (full_name fi) fi) = gtn (full_name fi)
     /\ fn (built_tool gtn c (full_name fi) fi) = func c (full_name fi)).
Proof.
  intros Hc. split.
  - intros n Hne. split.
    + intros e s' Hg. rewrite (convert_by_name _ gtn _ _ _ _ Hc Hne), Hg. reflexivity.
    + intros fi s' Hg. rewrite (convert_by_name _ gtn _ _ _ _ Hc Hne), Hg. reflexivity.
  - intros fi. split; [ | split; reflexivity ].
    apply (convert_by_descriptor _ gtn _ _ None fi _ Hc). reflexivity.
Qed.

Lemma uc_function_to_litellm_tool_fetch_or_derive_witness :
  uc_function_to_litellm_tool Demo.get_tool_name (Some Demo.client)
    (Some "catalog.schema.nope") None Demo.w_none
  = (inl (UpstreamError "function not found"),
     mkWorld 0%nat None [GetFunction "catalog.schema.nope"])
  /\
  uc_function_to_litellm_tool Demo.get_tool_name (Some Demo.client)
    (Some "catalog.schema.add") None Demo.w_none
  = (inr (built_tool Demo.get_tool_name Demo.client "catalog.schema.add" Demo.add_info),
     mkWorld 0%nat None [GetFunction "catalog.schema.add"])
  /\
  uc_function_to_litellm_tool Demo.get_tool_name (Some Demo.client)
    None (Some Demo.add_info) Demo.w_none
  = (inr (built_tool Demo.get_tool_name Demo.client "catalog.schema.add" Demo.add_info),
     Demo.w_none).
Proof.
  pose proof (@uc_function_to_litellm_tool_fetch_or_derive nat Demo.get_tool_name
                (Some Demo.client) Demo.client Demo.w_none eq_refl) as [Hname Hinfo].
  split; [ | split ].
  - apply (proj1 (Hname "catalog.schema.nope" ltac:(discriminate))). reflexivity.
  - apply (proj2 (Hname "catalog.schema.add" ltac:(discriminate))). reflexivity.
  - apply (proj1 (Hinfo Demo.add_info)).
Defined.

(** ** Conversion is a function of the client, the name and the descriptor *)

(** C7. A function converted by its concrete name in one toolkit and from
    its descriptor (as a wildcard expansion delivers it) in another, at
    different times and against the same client, gives the same tool: same
    name, same description, and callables that yield identical results for
    identical arguments. So do two conversions by the same name when the
    catalog hands out the same descriptor. The descriptor is the one the
    catalog keeps under that name. *)
Theorem conversion_deterministic (S : Type) (gtn : string -> string)
  (client1 client2 : option (BaseFunctionClient S)) (c : BaseFunctionClient S)
  (n : string) (w1 w1' w2 : World S) (t1 : LiteLLMTool S) :
  validate_or_set_default_client client1 w1 = (inr c, w1) ->
  validate_or_set_default_client client2 w2 = (inr c, w2) ->
  uc_function_to_litellm_tool gtn client1 (Some n) None w1 = (inr t1, w1') ->
  (forall fi t2 w2',
     fst (get_function c n (server w1)) = inr fi ->
     full_name fi = n ->
     uc_function_to_litellm_tool gtn client2 None (Some fi) w2 = (inr t2, w2') ->
     same_tool t1 t2)
  /\
  (forall t2 w2',
     fst (get_function c n (server w2)) = fst (get_function c n (server w1)) ->
     uc_function_to_litellm_tool gtn client2 (Some n) None w2 = (inr t2, w2') ->
     same_tool t1 t2).
Proof.
  intros Hc1 Hc2 H1.
  destruct (convert_inv _ _ _ _ _ _ _ _ H1)
    as [c1 [Hc1' [[n1 [fi1 [E1 [Hne [_ [Hg1 [-> _]]]]]]] | [fi1 [_ [E1 _]]]]]];
    [ | discriminate E1 ].
  inversion E1; subst n1. clear E1.
  rewrite Hc1 in Hc1'. inversion Hc1'; subst c1. clear Hc1'.
  split.
  - intros fi t2 w2' Hg Hfull H2.
    rewrite Hg1 in Hg. inversion Hg; subst fi1. clear Hg.
    rewrite (convert_by_descriptor _ gtn _ _ None fi _ Hc2 eq_refl) in H2.
    inversion H2; subst t2 w2'. rewrite Hfull.
    repeat split; reflexivity.
  - intros t2 w2' Hsame H2.
    rewrite (convert_by_name _ gtn _ _ _ _ Hc2 Hne), Hsame, Hg1 in H2.
    inversion H2; subst t2. repeat split; reflexivity.
Qed.

Lemma conversion_deterministic_witness :
  same_tool
    (built_tool Demo.get_tool_name Demo.client "catalog.schema.add" Demo.add_info)
    (built_tool Demo.get_tool_name Demo.client (full_name Demo.add_info) Demo.add_info)
  /\
  same_tool
    (built_tool Demo.get_tool_name Demo.client "catalog.schema.add" Demo.add_info)
    (built_tool Demo.get_tool_name Demo.client "catalog.schema.add" Demo.add_info).
Proof.
  pose proof (@conversion_deterministic nat Demo.get_tool_name
                (Some Demo.client) None Demo.client "catalog.schema.add"
                Demo.w_none (mkWorld 0%nat None [GetFunction "catalog.schema.add"])
                (mkWorld 7%nat (Some Demo.client) [ExpandPattern "catalog.schema.*"])
                (built_tool Demo.get_tool_name Demo.client "catalog.schema.add"
                   Demo.add_info)
                eq_refl eq_refl eq_refl) as [Hinfo Hname].
  split.
  - apply (Hinfo Demo.add_info _
             (mkWorld 7%nat (Some Demo.client) [ExpandPattern "catalog.schema.*"]));
      reflexivity.
  - apply (Hname _
             (mkWorld 7%nat (Some Demo.client)
                [ExpandPattern "catalog.schema.*"; GetFunction "catalog.schema.add"]));
      reflexivity.
Defined.

(** ** The schema of a function without parameters *)

(** C4. For a descriptor that declares no parameters the model handed to
    the tool builder is never [BaseModel] itself, which the builder would
    refuse, but a subclass of it, and its schema is an object without
    properties and without required fields; the converter returns a tool
    carrying that schema. When the schema utility answers with [BaseModel]
    (no [input_params] at all), the subclass is the wrapper made on the
    spot, with the name BaseModelWrapper. *)
Theorem no_parameters_schema (S : Type) (gtn : string -> string)
  (c : BaseFunctionClient S) (fi : FunctionInfo) (w : World S) :
  declares_no_parameters fi ->
  litellm_model fi <> BaseModel
  /\ issubclass (litellm_model fi) BaseModel
  /\ schema_type (model_json_schema (litellm_model fi)) = "object"
  /\ properties (model_json_schema (litellm_model fi)) = []
  /\ required (model_json_schema (litellm_model fi)) = []
  /\ (exists t,
        uc_function_to_litellm_tool gtn (Some c) None (Some fi) w = (inr t, w)
        /\ fd_parameters (td_function (tool t)) = model_json_schema (litellm_model fi))
  /\ (input_params fi = None ->
      generate_function_input_params_schema fi = BaseModel
      /\ pydantic_function_tool (generate_function_input_params_schema fi)
           (gtn (full_name fi)) (comment_or_empty (comment fi))
         = inl (TypeError msg_base_model)
      /\ litellm_model fi = type_call "BaseModelWrapper" BaseModel
      /\ class_name (litellm_model fi) <> class_name BaseModel).
Proof.
  intros Hzero.
  assert (Hm : litellm_model fi = type_call "BaseModelWrapper" BaseModel
               \/ exists n, litellm_model fi = create_model n []).
  { unfold litellm_model, generate_function_input_params_schema.
    destruct Hzero as [-> | ->]; simpl; [ left | right; eexists ]; reflexivity. }
  split; [ | split; [ | split; [ | split; [ | split; [ | split ] ] ] ] ].
  - destruct Hm as [-> | [n ->]]; discriminate.
  - destruct Hm as [-> | [n ->]]; simpl; auto.
  - reflexivity.
  - destruct Hm as [-> | [n ->]]; reflexivity.
  - destruct Hm as [-> | [n ->]]; reflexivity.
  - eexists. split.
    + apply (convert_by_descriptor _ gtn (Some c) c None fi w); reflexivity.
    + reflexivity.
  - intros Hnone.
    unfold litellm_model, generate_function_input_params_schema.
    rewrite Hnone. simpl. repeat split; try reflexivity. discriminate.
Qed.

Lemma no_parameters_schema_witness :
  litellm_model Demo.ping_info = type_call "BaseModelWrapper" BaseModel
  /\ model_json_schema (litellm_model Demo.ping_info)
     = {| title := "BaseModelWrapper"; schema_type := "object";
          properties := []; required := [] |}
  /\ exists t,
       uc_function_to_litellm_tool Demo.get_tool_name (Some Demo.client) None
         (Some Demo.ping_info) Demo.w_none = (inr t, Demo.w_none)
       /\ fd_parameters (td_function (tool t))
          = model_json_schema (litellm_model Demo.ping_info).
Proof.
  pose proof (@no_parameters_schema nat Demo.get_tool_name Demo.client
                Demo.ping_info Demo.w_none (or_introl eq_refl))
    as [_ [_ [_ [_ [_ [Ht Hnone]]]]]].
  split; [ | split ].
  - apply (Hnone eq_refl).
  - reflexivity.
  - exact Ht.
Defined.

(** ** What the callable sends and returns *)

Lemma dict_set_fresh {V : Type} (d : list (string * V)) (k : string) (v : V) :
  ~ In k (map fst d) -> dict_set d k v = (d ++ [(k, v)])%list.
Proof.
  induction d as [ | [k' v'] d IH]; simpl; intros Hk.
  - reflexivity.
  - destruct (String.eqb_spec k' k) as [-> | _].
    + exfalso. apply Hk. left. reflexivity.
    + rewrite IH; [ reflexivity | ]. intros Hin. apply Hk. right. exact Hin.
Qed.

Lemma dict_set_Forall {V : Type} (Q : V -> Prop) (d : list (string * V))
  (k : string) (v : V) :
  Forall (fun kv => Q (snd kv)) d -> Q v ->
  Forall (fun kv => Q (snd kv)) (dict_set d k v).
Proof.
  induction d as [ | [k' v'] d IH]; simpl; intros Hd Hv.
  - constructor; [ exact Hv | constructor ].
  - inversion Hd as [ | ? ? Hhd Htl]; subst.
    destruct (k' =? k).
    + constructor; assumption.
    + constructor; [ assumption | apply IH; assumption ].
Qed.

Lemma fold_dict_set_Forall {V : Type} (Q : V -> Prop) (ps acc : list (string * V)) :
  Forall (fun kv => Q (snd kv)) ps ->
  Forall (fun kv => Q (snd kv)) acc ->
  Forall (fun kv => Q (snd kv))
    (fold_left (fun d kv => dict_set d (fst kv) (snd kv)) ps acc).
Proof.
  revert acc. induction ps as [ | [k v] ps IH]; simpl; intros acc Hps Hacc.
  - exact Hacc.
  - inversion Hps as [ | ? ? Hhd Htl]; subst.
    apply IH; [ assumption | ]. apply dict_set_Forall; assumption.
Qed.

Lemma fold_dict_set_fresh {V : Type} (ps acc : list (string * V)) :
  NoDup (map fst (acc ++ ps)) ->
  fold_left (fun d kv => dict_set d (fst kv) (snd kv)) ps acc = (acc ++ ps)%list.
Proof.
  revert acc. induction ps as [ | [k v] ps IH]; simpl; intros acc Hnd.
  - rewrite app_nil_r. reflexivity.
  - rewrite dict_set_fresh.
    + rewrite IH; rewrite <- app_assoc; simpl; [ reflexivity | exact Hnd ].
    + rewrite map_app in Hnd. simpl in Hnd.
      apply NoDup_remove_2 in Hnd. intros Hin. apply Hnd.
      apply in_or_app. left. exact Hin.
Qed.

(** Keys that differ pairwise are kept as they come. *)
Lemma dict_of_pairs_NoDup {V : Type} (ps : list (string * V)) :
  NoDup (map fst ps) -> dict_of_pairs ps = ps.
Proof.
  intros Hnd. unfold dict_of_pairs. apply (fold_dict_set_fresh ps []). exact Hnd.
Qed.

(** Whatever [json.loads] returns is JSON-compatible. *)
Lemma json_loads_compatible : forall j : Json, json_compatible (json_loads j) = true.
Proof.
  fix IH 1. intros [ | b | z | r | s | l | ms]; simpl; try reflexivity.
  - induction l as [ | x l IHl]; simpl.
    + reflexivity.
    + rewrite IH, IHl. reflexivity.
  - apply forallb_forall. intros [k v] Hin.
    apply in_map_iff in Hin. destruct Hin as [[k' v'] [E Hin]].
    simpl in E. inversion E; subst k v. simpl.
    assert (HF : Forall (fun kv : string * PyVal => json_compatible (snd kv) = true)
                   (dict_of_pairs (map (fun kv => (fst kv, json_loads (snd kv))) ms))).
    { unfold dict_of_pairs.
      apply (fold_dict_set_Forall (fun v => json_compatible v = true));
        [ | constructor ].
      clear Hin.
      induction ms as [ | [k0 j0] ms IHms]; simpl; constructor.
      + simpl. apply IH.
      + apply IHms. }
    rewrite Forall_forall in HF. apply (HF (k', v') Hin).
Qed.

Lemma distinct_NoDup (l : list string) : distinct l = true -> NoDup l.
Proof.
  induction l as [ | x l IH]; simpl; intros H.
  - constructor.
  - apply andb_prop in H. destruct H as [Hx Hl].
    constructor; [ | apply IH; exact Hl ].
    intros Hin. apply negb_true_iff in Hx.
    assert (Hex : existsb (String.eqb x) l = true).
    { apply existsb_exists. exists x. split; [ exact Hin | apply String.eqb_refl ]. }
    rewrite Hex in Hx. discriminate Hx.
Qed.

(** The round trip through JSON computes [jsonify] on every value whose
    dicts have pairwise different str keys, and does not raise on them. *)
Lemma json_roundtrip_jsonify :
  forall v : PyVal,
    str_keyed v = true ->
    exists j, json_dumps v = inr j /\ json_loads j = jsonify v.
Proof.
  fix IH 1.
  intros v Hv.
  assert (Hlist : forall l : list PyVal,
             (forall x, In x l -> str_keyed x = true ->
                        exists j, json_dumps x = inr j /\ json_loads j = jsonify x) ->
             forallb str_keyed l = true ->
             exists js, traverse json_dumps l = inr js
                        /\ map json_loads js = map jsonify l).
  { clear. induction l as [ | x l IHl]; simpl; intros Hrec Hl.
    - exists []. split; reflexivity.
    - apply andb_prop in Hl. destruct Hl as [Hx Hl].
      destruct (Hrec x (or_introl eq_refl) Hx) as [j [Hj Ej]].
      destruct (IHl (fun y Hy => Hrec y (or_intror Hy)) Hl) as [js [Hjs Ejs]].
      rewrite Hj, Hjs. exists (j :: js). simpl. rewrite Ej, Ejs.
      split; reflexivity. }
  destruct v as [ | b | z | r | s | l | l | items | s]; simpl in Hv |- *;
    try (eexists; split; reflexivity).
  - destruct (Hlist l) as [js [Hjs Ejs]]; [ | exact Hv | ].
    + clear Hlist Hv. induction l as [ | y l IHl]; intros x Hin Hx.
      * destruct Hin.
      * destruct Hin as [<- | Hin]; [ apply IH; exact Hx | apply IHl; assumption ].
    + rewrite Hjs. eexists. split; [ reflexivity | ]. simpl. rewrite Ejs. reflexivity.
  - destruct (Hlist l) as [js [Hjs Ejs]]; [ | exact Hv | ].
    + clear Hlist Hv. induction l as [ | y l IHl]; intros x Hin Hx.
      * destruct Hin.
      * destruct Hin as [<- | Hin]; [ apply IH; exact Hx | apply IHl; assumption ].
    + rewrite Hjs. eexists. split; [ reflexivity | ]. simpl. rewrite Ejs. reflexivity.
  - apply andb_prop in Hv. destruct Hv as [Hitems Hdist].
    clear Hlist.
    assert (Hm : exists ms,
               traverse (fun kv : PyKey * PyVal =>
                           match json_key (fst kv) with
                           | inl e => inl e
                           | inr s =>
                               match json_dumps (snd kv) with
                               | inl e => inl e
                               | inr j => inr (s, j)
                               end
                           end) items = inr ms
               /\ map (fun kv => (fst kv, json_loads (snd kv))) ms
                  = map (fun kv => (key_str (fst kv), jsonify (snd kv))) items).
    { clear Hdist. induction items as [ | [k x] items IHi]; simpl in *.
      - exists []. split; reflexivity.
      - apply andb_prop in Hitems. destruct Hitems as [Hkx Hrest].
        destruct k; try discriminate Hkx. simpl.
        destruct (IH x Hkx) as [j [Hj Ej]].
        destruct (IHi Hrest) as [ms [Hms Ems]].
        rewrite Hj, Hms. eexists. split; [ reflexivity | ].
        simpl. rewrite Ej, Ems. reflexivity. }
    destruct Hm as [ms [Hms Ems]]. rewrite Hms.
    eexists. split; [ reflexivity | ]. simpl. rewrite Ems.
    rewrite dict_of_pairs_NoDup.
    + f_equal. rewrite map_map. simpl. apply map_ext_in.
      intros [k x] Hin. simpl.
      rewrite forallb_forall in Hitems. specialize (Hitems _ Hin). simpl in Hitems.
      destruct k; try discriminate Hitems. reflexivity.
    + rewrite map_map. simpl. apply distinct_NoDup. exact Hdist.
Qed.

(** What reaches the client for keyword arguments of that kind: the
    arguments under their names, in their order, each value jsonified. *)
Lemma args_json_of_jsonify (kwargs : list (string * PyVal)) :
  NoDup (map fst kwargs) ->
  forallb (fun kv => str_keyed (snd kv)) kwargs = true ->
  args_json_of kwargs = inr (kwargs_dict (map (fun kv => (fst kv, jsonify (snd kv))) kwargs)).
Proof.
  intros Hnd Hsk. unfold args_json_of.
  assert (Hk : str_keyed (kwargs_dict kwargs) = true).
  { unfold kwargs_dict. simpl. apply andb_true_intro. split.
    - rewrite forallb_forall. intros [k0 x0] Hin.
      apply in_map_iff in Hin. destruct Hin as [[k x] [E Hin]].
      inversion E; subst. simpl.
      rewrite forallb_forall in Hsk. apply (Hsk _ Hin).
    - rewrite map_map. simpl.
      clear Hsk. induction kwargs as [ | [k x] kwargs IHk]; simpl in *.
      + reflexivity.
      + inversion Hnd as [ | ? ? Hnotin Hnd']; subst.
        rewrite (IHk Hnd'). rewrite andb_true_r. apply negb_true_iff.
        destruct (existsb (String.eqb k) (map (fun x0 => fst x0) kwargs)) eqn:Hex;
          [ | reflexivity ].
        apply existsb_exists in Hex. destruct Hex as [k' [Hin Heq]].
        apply String.eqb_eq in Heq. subst k'. contradiction. }
  destruct (json_roundtrip_jsonify _ Hk) as [j [Hj Ej]].
  rewrite Hj, Ej. unfold kwargs_dict. simpl. rewrite !map_map. reflexivity.
Qed.

(** C3. Whatever way a tool was produced, its callable is bound to the
    client the conversion resolved and to one function name. On every call
    it serializes the keyword arguments; if that raises (a dict key JSON
    cannot take), the exception comes out and nothing is submitted.
    Otherwise the result of the round trip, which is JSON-compatible, goes
    to [execute_function] for the bound name, exactly once, in whatever
    state the world is (nothing is remembered from earlier calls); the
    callable returns [to_json()] of the result as it is, or raises what
    [execute_function] raised. For arguments whose dicts have pairwise
    different str keys the serialization does not raise, and what reaches
    the client is the arguments with every value JSON does not know
    replaced by its string and every tuple by a list. *)
Theorem callable_submits_and_returns (S : Type) (gtn : string -> string)
  (client : option (BaseFunctionClient S))
  (function_name : option string) (function_info : option FunctionInfo)
  (w w' : World S) (t : LiteLLMTool S) :
  uc_function_to_litellm_tool gtn client function_name function_info w = (inr t, w') ->
  exists c n,
    validate_or_set_default_client client w = (inr c, w)
    /\ ((function_name = Some n /\ n <> "")
        \/ (truthy_str function_name = false
            /\ exists fi, function_info = Some fi /\ n = full_name fi))
    /\ (forall kwargs w1,
          fn t kwargs w1 =
          match args_json_of kwargs with
          | inl e => (inl e, w1)
          | inr args =>
              (match fst (execute_function c n args (server w1)) with
               | inl e => inl e
               | inr r => inr (to_json r)
               end,
               mkWorld (snd (execute_function c n args (server w1)))
                 (default_client w1)
                 (log w1 ++ [ExecuteFunction n args]))
          end)
    /\ (forall kwargs args,
          args_json_of kwargs = inr args -> json_compatible args = true)
    /\ (forall kwargs,
          NoDup (map fst kwargs) ->
          forallb (fun kv => str_keyed (snd kv)) kwargs = true ->
          args_json_of kwargs
          = inr (kwargs_dict (map (fun kv => (fst kv, jsonify (snd kv))) kwargs))).
Proof.
  intros H.
  assert (Hfunc : forall (c : BaseFunctionClient S) n kwargs w1,
             func c n kwargs w1 =
             match args_json_of kwargs with
             | inl e => (inl e, w1)
             | inr args =>
                 (match fst (execute_function c n args (server w1)) with
                  | inl e => inl e
                  | inr r => inr (to_json r)
                  end,
                  mkWorld (snd (execute_function c n args (server w1)))
                    (default_client w1)
                    (log w1 ++ [ExecuteFunction n args]))
             end).
  { intros c n kwargs w1. unfold func, bind, lift, call, ret, raise.
    destruct (args_json_of kwargs) as [e | args]; [ reflexivity | ].
    destruct (execute_function c n args (server w1)) as [[e | r] s']; reflexivity. }
  assert (Hcompat : forall kwargs args,
             args_json_of kwargs = inr args -> json_compatible args = true).
  { intros kwargs args. unfold args_json_of.
    destruct (json_dumps (kwargs_dict kwargs)) as [e | j]; intros E; inversion E.
    apply json_loads_compatible. }
  destruct (convert_inv _ _ _ _ _ _ _ _ H)
    as [c [Hc [[n [fi [-> [Hne [-> [Hg [-> _]]]]]]] | [fi [Hn [-> [-> _]]]]]]].
  - exists c, n. split; [ exact Hc | ]. split; [ left; auto | ].
    split; [ intros; apply Hfunc | ].
    split; [ exact Hcompat | exact args_json_of_jsonify ].
  - exists c, (full_name fi). split; [ exact Hc | ].
    split; [ right; split; [ exact Hn | exists fi; auto ] | ].
    split; [ intros; apply Hfunc | ].
    split; [ exact Hcompat | exact args_json_of_jsonify ].
Qed.

Lemma callable_submits_and_returns_witness :
  fn (built_tool Demo.get_tool_name Demo.client "catalog.schema.echo" Demo.echo_info)
    [("x", PStr "hello")] Demo.w_none
  = (inr ("{" ++ Demo.dq ++ "value" ++ Demo.dq ++ ": "
            ++ Demo.dq ++ "hello" ++ Demo.dq ++ "}"),
     mkWorld 1%nat None
       [ExecuteFunction "catalog.schema.echo" (PDict [(KStr "x", PStr "hello")])])
  /\
  args_json_of [("day", PObj "2024-01-01"); ("at", PTuple [PInt 1; PInt 2])]
  = inr (PDict [(KStr "day", PStr "2024-01-01"); (KStr "at", PList [PInt 1; PInt 2])])
  /\
  json_compatible
    (PDict [(KStr "day", PStr "2024-01-01"); (KStr "at", PList [PInt 1; PInt 2])])
  = true.
Proof.
  destruct (callable_submits_and_returns nat Demo.get_tool_name
              (Some Demo.client) None (Some Demo.echo_info) Demo.w_none Demo.w_none
              (built_tool Demo.get_tool_name Demo.client "catalog.schema.echo"
                 Demo.echo_info) eq_refl)
    as [c [n [Hc [Hn [Hfn [Hcompat Hjsonify]]]]]].
  assert (Hargs :
            args_json_of [("day", PObj "2024-01-01"); ("at", PTuple [PInt 1; PInt 2])]
            = inr (PDict [(KStr "day", PStr "2024-01-01");
                          (KStr "at", PList [PInt 1; PInt 2])])).
  { apply (Hjsonify [("day", PObj "2024-01-01"); ("at", PTuple [PInt 1; PInt 2])]).
    - constructor.
      + simpl. intros [E | []]. discriminate E.
      + constructor; [ intros [] | constructor ].
    - reflexivity. }
  split; [ | split ].
  - rewrite Hfn.
    assert (Ec : c = Demo.client) by (inversion Hc; reflexivity).
    assert (En : n = "catalog.schema.echo").
    { destruct Hn as [[E _] | [_ [fi [E ->]]]];
        [ discriminate E | inversion E; reflexivity ]. }
    rewrite Ec, En. reflexivity.
  - exact Hargs.
  - exact (Hcompat _ _ Hargs).
Defined.

(** ** Names without duplicates *)

Lemma dedup_In (l : list string) (x : string) : In x (dedup l) <-> In x l.
Proof.
  induction l as [ | a l IH]; simpl.
  - tauto.
  - rewrite filter_In, IH. split.
    + intros [E | [Hin _]]; auto.
    + intros [E | Hin]; [ left; exact E | ].
      destruct (String.eqb_spec x a) as [-> | Hne].
      * left. reflexivity.
      * right. split; [ exact Hin | reflexivity ].
Qed.

Lemma dedup_NoDup (l : list string) : NoDup (dedup l).
Proof.
  induction l as [ | a l IH]; simpl.
  - constructor.
  - constructor.
    + rewrite filter_In. intros [_ H]. rewrite String.eqb_refl in H. discriminate H.
    + apply NoDup_filter. exact IH.
Qed.

(** [dedup] keeps as many names as there are distinct ones. *)
Lemma dedup_length (l : list string) :
  List.length (dedup l) = List.length (nodup string_dec l).
Proof.
  apply Permutation_length. apply NoDup_Permutation.
  - apply dedup_NoDup.
  - apply NoDup_nodup.
  - intros x. rewrite dedup_In, nodup_In. tauto.
Qed.

(** ** What a successful construction has done *)

Lemma convert_function_names_inv (S : Type) (gtn : string -> string)
  (c : BaseFunctionClient S) (names : list string) :
  forall (d d' : Dict S) (w w' : World S),
    convert_function_names c (uc_function_to_litellm_tool gtn) names d w = (inr d', w') ->
    NoDup names ->
    (forall n, In n names -> ~ In n (map fst d)) ->
    exists new,
      d' = (d ++ new)%list
      /\ Forall2 (entry_of gtn c) names new
      /\ log w' = (log w ++ map GetFunction names)%list.
Proof.
  induction names as [ | n rest IH]; intros d d' w w' H Hnd Hfresh.
  - simpl in H. unfold ret in H. inversion H; subst.
    exists []. rewrite !app_nil_r. repeat split. constructor.
  - simpl in H. unfold bind in H.
    destruct (uc_function_to_litellm_tool gtn (Some c) (Some n) None w)
      as [[e | t] w1] eqn:Hconv; [ discriminate H | ].
    destruct (convert_inv _ _ _ _ _ _ _ _ Hconv)
      as [c1 [Hc [[n1 [fi [E [Hne [_ [Hg [-> ->]]]]]]] | [fi [_ [E _]]]]]];
      [ | discriminate E ].
    inversion E; subst n1. inversion Hc; subst c1. clear E Hc.
    rewrite dict_set_fresh in H by (apply Hfresh; left; reflexivity).
    inversion Hnd as [ | ? ? Hnotin Hnd']; subst.
    apply IH in H; [ | exact Hnd' | ].
    + destruct H as [new [-> [HF Hlog]]].
      exists ((n, built_tool gtn c n fi) :: new).
      rewrite <- app_assoc. simpl. split; [ reflexivity | ]. split.
      * constructor; [ | exact HF ]. split; [ reflexivity | ].
        exists fi, (server w). split; [ exact Hg | reflexivity ].
      * rewrite Hlog. simpl. rewrite <- app_assoc. reflexivity.
    + intros m Hm. rewrite map_app. simpl. intros Hin.
      apply in_app_or in Hin. destruct Hin as [Hin | [-> | []]].
      * apply (Hfresh m); [ right; exact Hm | exact Hin ].
      * apply Hnotin. exact Hm.
Qed.

Lemma entry_of_keys (S : Type) (gtn : string -> string) (c : BaseFunctionClient S)
  (names : list string) (new : list (string * LiteLLMTool S)) :
  Forall2 (entry_of gtn c) names new ->
  map fst new = names /\ map (fun kt => name (snd kt)) new = map gtn names.
Proof.
  induction 1 as [ | k kt names new [Hk [fi [s [_ Ht]]]] _ [IH1 IH2]]; simpl.
  - split; reflexivity.
  - rewrite IH1, IH2, Hk, Ht. split; reflexivity.
Qed.

(** A toolkit that was constructed: the client was there, the list was not
    empty, the expansion returned, and every distinct resolved name was
    converted, in order, by one fetch each. *)
Lemma new_toolkit_inv (S : Type) (gtn : string -> string)
  (names : list string) (client : option (BaseFunctionClient S))
  (w w' : World S) (tk : UCFunctionToolkit S) :
  new_toolkit gtn names client w = (inr tk, w') ->
  exists c resolved w1 new,
    validate_or_set_default_client client w = (inr c, w)
    /\ names <> []
    /\ expand_function_names c names w = (inr resolved, w1)
    /\ tk = mkToolkit names new (Some c)
    /\ Forall2 (entry_of gtn c) (dedup resolved) new
    /\ log w' = (log w1 ++ map GetFunction (dedup resolved))%list.
Proof.
  unfold new_toolkit, validate_toolkit, process_function_names. simpl.
  unfold bind at 1.
  destruct (validate_or_set_default_client client w) as [[e | c] w0] eqn:Hc;
    [ discriminate | ].
  pose proof (validate_or_set_default_client_world _ _ _ _ _ Hc) as ->.
  destruct names as [ | n0 names0]; [ discriminate | ].
  unfold bind at 1. unfold bind at 1.
  destruct (expand_function_names c (n0 :: names0) w) as [[e | resolved] w1] eqn:He;
    [ discriminate | ].
  destruct (convert_function_names c (uc_function_to_litellm_tool gtn)
              (dedup resolved) [] w1) as [[e | d] w2] eqn:Hv; [ discriminate | ].
  unfold ret. intros H. inversion H; subst. clear H.
  apply convert_function_names_inv in Hv; [ | apply dedup_NoDup | intros ? _ [] ].
  destruct Hv as [new [-> [HF Hlog]]].
  exists c, resolved, w1, new. simpl.
  repeat split; auto. discriminate.
Qed.

(** Where a resolved name comes from: it is a well-formed concrete entry of
    [function_names], or the client returned it for a wildcard entry. *)
Lemma expand_function_names_sound (S : Type) (c : BaseFunctionClient S)
  (names : list string) :
  forall (w w' : World S) (resolved : list string),
    expand_function_names c names w = (inr resolved, w') ->
    forall k, In k resolved ->
      (In k names /\ classify_entry k = inr Concrete)
      \/ (exists p s ks s',
            In p names /\ classify_entry p = inr Wildcard
            /\ expand_pattern c p s = (inr ks, s') /\ In k ks).
Proof.
  induction names as [ | n rest IH]; intros w w' resolved H k Hk.
  - simpl in H. unfold ret in H. inversion H; subst. destruct Hk.
  - simpl in H. unfold bind at 1 in H. unfold lift in H.
    destruct (classify_entry n) as [e | entry] eqn:Hcl;
      [ unfold raise in H; discriminate H | ].
    unfold ret at 1 in H. unfold bind at 1 in H.
    destruct entry.
    + unfold ret at 1 in H. unfold bind in H.
      destruct (expand_function_names c rest w) as [[e | more] w1] eqn:Hrest;
        [ discriminate H | ].
      unfold ret in H. inversion H; subst. clear H.
      destruct Hk as [<- | Hk].
      * left. split; [ left; reflexivity | exact Hcl ].
      * destruct (IH _ _ _ Hrest k Hk) as [[Hin Hc] | [p [s [ks [s' [Hin Hp]]]]]].
        -- left. split; [ right; exact Hin | exact Hc ].
        -- right. exists p, s, ks, s'. split; [ right; exact Hin | exact Hp ].
    + unfold call in H.
      destruct (expand_pattern c n (server w)) as [[e | ks] s1] eqn:Hexp;
        [ discriminate H | ].
      unfold bind in H.
      match type of H with
      | context [expand_function_names c rest ?w0] =>
          destruct (expand_function_names c rest w0) as [[e | more] w1] eqn:Hrest
      end; [ discriminate H | ].
      unfold ret in H. inversion H; subst. clear H.
      apply in_app_or in Hk. destruct Hk as [Hk | Hk].
      * right. exists n, (server w), ks, s1.
        split; [ left; reflexivity | ]. split; [ exact Hcl | ].
        split; [ exact Hexp | exact Hk ].
      * destruct (IH _ _ _ Hrest k Hk) as [[Hin Hc] | [p [s [ks' [s' [Hin Hp]]]]]].
        -- left. split; [ right; exact Hin | exact Hc ].
        -- right. exists p, s, ks', s'. split; [ right; exact Hin | exact Hp ].
Qed.

(** ** The tools of a toolkit *)

(** C5. When a toolkit is constructed (the list is not empty and every
    name resolves), its mapping has one key per distinct resolved name, in
    the order the names were first resolved; [tools] returns the values in
    that order, so it has as many tools as there are distinct resolved
    names, and its i-th tool is the tool of the i-th distinct name. *)
Theorem tools_follow_resolution_order (S : Type) (gtn : string -> string)
  (names : list string) (client : option (BaseFunctionClient S))
  (w w' : World S) (tk : UCFunctionToolkit S) :
  new_toolkit gtn names client w = (inr tk, w') ->
  exists c resolved w1,
    validate_or_set_default_client client w = (inr c, w)
    /\ expand_function_names c names w = (inr resolved, w1)
    /\ tools tk = map snd (tools_dict tk)
    /\ map fst (tools_dict tk) = dedup resolved
    /\ List.length (tools tk) = List.length (nodup string_dec resolved)
    /\ map (@name S) (tools tk) = map gtn (dedup resolved).
Proof.
  intros H.
  destruct (new_toolkit_inv _ _ _ _ _ _ _ H)
    as [c [resolved [w1 [new [Hc [_ [He [-> [HF _]]]]]]]]].
  destruct (entry_of_keys _ _ _ _ _ HF) as [Hkeys Hnames].
  exists c, resolved, w1. unfold tools. simpl.
  split; [ exact Hc | ]. split; [ exact He | ]. split; [ reflexivity | ].
  split; [ exact Hkeys | ]. split.
  - rewrite length_map, <- dedup_length, <- Hkeys, length_map. reflexivity.
  - rewrite map_map. exact Hnames.
Qed.

Lemma tools_follow_resolution_order_witness :
  exists tk w',
    new_toolkit Demo.get_tool_name
      ["catalog.schema.ping"; "catalog.schema.*"; "catalog.schema.add"]
      None Demo.w_default = (inr tk, w')
    /\ map fst (tools_dict tk) = ["catalog.schema.ping"; "catalog.schema.add"]
    /\ List.length (tools tk) = 2%nat
    /\ map (@name nat) (tools tk) = ["catalog__schema__ping"; "catalog__schema__add"].
Proof.
  destruct (new_toolkit Demo.get_tool_name
              ["catalog.schema.ping"; "catalog.schema.*"; "catalog.schema.add"]
              None Demo.w_default) as [[e | tk] w'] eqn:H.
  - vm_compute in H. discriminate H.
  - exists tk, w'. split; [ reflexivity | ].
    destruct (tools_follow_resolution_order nat _ _ _ _ _ _ H)
      as [c [resolved [w1 [Hc [He [_ [Hkeys [Hlen Hnames]]]]]]]].
    inversion Hc; subst c. vm_compute in He. inversion He; subst resolved.
    split; [ exact Hkeys | ]. split; [ exact Hlen | exact Hnames ].
Defined.

(** ** Construction is all or nothing *)

(** C6. A failure of any step is the failure of the construction: of the
    client resolution, of the empty-list guard, of the pattern expansion,
    of the conversions; the exception of the step comes out and no toolkit
    is returned. When a toolkit is returned, every key of its mapping is a
    resolved name (a well-formed concrete entry, or a name the client
    returned for a wildcard entry) for which the client was asked and
    returned a descriptor, and the key holds the tool built from it. *)
Theorem toolkit_all_or_nothing (S : Type) (gtn : string -> string)
  (names : list string) (client : option (BaseFunctionClient S)) (w : World S) :
  (forall e w1,
     validate_or_set_default_client client w = (inl e, w1) ->
     new_toolkit gtn names client w = (inl e, w1))
  /\
  (forall c,
     validate_or_set_default_client client w = (inr c, w) ->
     (names = [] ->
      new_toolkit gtn names client w = (inl (ValueError msg_no_function_names), w))
     /\
     (names <> [] ->
      forall e w1,
        expand_function_names c names w = (inl e, w1) ->
        new_toolkit gtn names client w = (inl e, w1))
     /\
     (names <> [] ->
      forall resolved w1 e w2,
        expand_function_names c names w = (inr resolved, w1) ->
        convert_function_names c (uc_function_to_litellm_tool gtn)
          (dedup resolved) [] w1 = (inl e, w2) ->
        new_toolkit gtn names client w = (inl e, w2)))
  /\
  (forall tk w',
     new_toolkit gtn names client w = (inr tk, w') ->
     exists c resolved w1,
       validate_or_set_default_client client w = (inr c, w)
       /\ expand_function_names c names w = (inr resolved, w1)
       /\ forall k, In k (map fst (tools_dict tk)) ->
            In k resolved
            /\ ((In k names /\ classify_entry k = inr Concrete)
                \/ (exists p s ks s',
                      In p names /\ classify_entry p = inr Wildcard
                      /\ expand_pattern c p s = (inr ks, s') /\ In k ks))
            /\ In (GetFunction k) (log w')
            /\ exists fi s,
                 fst (get_function c k s) = inr fi
                 /\ In (k, built_tool gtn c k fi) (tools_dict tk)).
Proof.
  split; [ | split ].
  - intros e w1 Hc. unfold new_toolkit, validate_toolkit, bind. simpl.
    rewrite Hc. reflexivity.
  - intros c Hc. split; [ | split ].
    + intros ->. unfold new_toolkit, validate_toolkit, bind. simpl.
      rewrite Hc. reflexivity.
    + intros Hne e w1 He.
      unfold new_toolkit, validate_toolkit, process_function_names. simpl.
      unfold bind at 1. rewrite Hc.
      destruct names as [ | n0 names0]; [ contradiction | ].
      unfold bind at 1. unfold bind at 1. rewrite He. reflexivity.
    + intros Hne resolved w1 e w2 He Hv.
      unfold new_toolkit, validate_toolkit, process_function_names. simpl.
      unfold bind at 1. rewrite Hc.
      destruct names as [ | n0 names0]; [ contradiction | ].
      unfold bind at 1. unfold bind at 1. rewrite He, Hv. reflexivity.
  - intros tk w' H.
    destruct (new_toolkit_inv _ _ _ _ _ _ _ H)
      as [c [resolved [w1 [new [Hc [_ [He [-> [HF Hlog]]]]]]]]].
    exists c, resolved, w1. split; [ exact Hc | ]. split; [ exact He | ].
    simpl. intros k Hk.
    destruct (entry_of_keys _ _ _ _ _ HF) as [Hkeys _].
    assert (Hkd : In k (dedup resolved)) by (rewrite <- Hkeys; exact Hk).
    assert (Hkr : In k resolved) by (apply dedup_In; exact Hkd).
    split; [ exact Hkr | ].
    split; [ exact (expand_function_names_sound _ _ _ _ _ _ He k Hkr) | ].
    split.
    + rewrite Hlog. apply in_or_app. right. apply in_map. exact Hkd.
    + clear H He Hkeys Hk Hkr Hlog.
      induction HF as [ | k0 kt ks new0 [Hfst [fi [s [Hg Ht]]]] _ IH].
      * destruct Hkd.
      * destruct Hkd as [-> | Hkd].
        -- exists fi, s. split; [ exact Hg | ]. left.
           destruct kt as [k1 t1]. simpl in Hfst, Ht. subst. reflexivity.
        -- destruct (IH Hkd) as [fi' [s' [Hg' Hin]]].
           exists fi', s'. split; [ exact Hg' | right; exact Hin ].
Qed.

Lemma toolkit_all_or_nothing_witness :
  new_toolkit Demo.get_tool_name ["catalog.schema.add"] None Demo.w_none
  = (inl MissingClient, Demo.w_none)
  /\
  new_toolkit Demo.get_tool_name [] (Some Demo.client) Demo.w_none
  = (inl (ValueError msg_no_function_names), Demo.w_none)
  /\
  new_toolkit Demo.get_tool_name ["add"] (Some Demo.client) Demo.w_none
  = (inl (ValueError msg_invalid_name), Demo.w_none)
  /\
  new_toolkit Demo.get_tool_name ["catalog.schema.add"; "catalog.schema.nope"]
    (Some Demo.client) Demo.w_none
  = (inl (UpstreamError "function not found"),
     mkWorld 0%nat None
       [GetFunction "catalog.schema.add"; GetFunction "catalog.schema.nope"])
  /\
  exists tk w',
    new_toolkit Demo.get_tool_name ["catalog.schema.*"] (Some Demo.client) Demo.w_none
    = (inr tk, w')
    /\ forall k, In k (map fst (tools_dict tk)) -> In (GetFunction k) (log w').
Proof.
  split; [ | split; [ | split; [ | split ] ] ].
  - apply (proj1 (toolkit_all_or_nothing nat Demo.get_tool_name
                    ["catalog.schema.add"] None Demo.w_none)).
    reflexivity.
  - apply (proj1 (proj1 (proj2 (toolkit_all_or_nothing nat Demo.get_tool_name
                                  [] (Some Demo.client) Demo.w_none))
                    Demo.client eq_refl)).
    reflexivity.
  - apply (proj1 (proj2 (proj1 (proj2 (toolkit_all_or_nothing nat Demo.get_tool_name
                                         ["add"] (Some Demo.client) Demo.w_none))
                           Demo.client eq_refl)));
      [ discriminate | reflexivity ].
  - eapply (proj2 (proj2 (proj1 (proj2 (toolkit_all_or_nothing nat Demo.get_tool_name
                                          ["catalog.schema.add"; "catalog.schema.nope"]
                                          (Some Demo.client) Demo.w_none))
                            Demo.client eq_refl)));
      [ discriminate | reflexivity | reflexivity ].
  - destruct (new_toolkit Demo.get_tool_name ["catalog.schema.*"]
                (Some Demo.client) Demo.w_none) as [[e | tk] w'] eqn:H.
    + vm_compute in H. discriminate H.
    + exists tk, w'. split; [ reflexivity | ].
      destruct (proj2 (proj2 (toolkit_all_or_nothing nat Demo.get_tool_name
                                ["catalog.schema.*"] (Some Demo.client) Demo.w_none))
                  tk w' H) as [c [resolved [w1 [_ [_ Hkeys]]]]].
      intros k Hin. apply (Hkeys k Hin).
Defined.

(** * Further properties of the code *)

(** ** When the serialization raises *)




(** ** The dict [json.loads] builds *)

Lemma filter_twice {A : Type} (f g : A -> bool) (l : list A) :
  filter f (filter g l) = filter (fun x => g x && f x) l.
Proof.
  induction l as [ | a l IH]; simpl.
  - reflexivity.
  - destruct (g a); simpl; [ destruct (f a); rewrite IH; reflexivity | exact IH ].
Qed.

Lemma dict_set_keys {V : Type} (d : list (string * V)) (k : string) (v : V) :
  map fst (dict_set d k v)
  = if existsb (String.eqb k) (map fst d) then map fst d else (map fst d ++ [k])%list.
Proof.
  induction d as [ | [k' v'] d IH]; simpl.
  - reflexivity.
  - rewrite (String.eqb_sym k k').
    destruct (k' =? k); simpl.
    + reflexivity.
    + rewrite IH. destruct (existsb (String.eqb k) (map fst d)); reflexivity.
Qed.

Lemma dict_get_set {V : Type} (d : list (string * V)) (k k' : string) (v : V) :
  dict_get (dict_set d k v) k' = if k =? k' then Some v else dict_get d k'.
Proof.
  unfold dict_get.
  induction d as [ | [k0 v0] d IH]; simpl.
  - destruct (k =? k'); reflexivity.
  - destruct (String.eqb_spec k0 k) as [-> | Hne]; simpl.
    + destruct (k =? k'); reflexivity.
    + destruct (String.eqb_spec k0 k') as [-> | Hne'].
      * destruct (String.eqb_spec k k') as [-> | _]; [ contradiction | reflexivity ].
      * exact IH.
Qed.

Lemma fold_dict_set_keys {V : Type} (ps acc : list (string * V)) :
  map fst (fold_left (fun d kv => dict_set d (fst kv) (snd kv)) ps acc)
  = (map fst acc
       ++ filter (fun k => negb (existsb (String.eqb k) (map fst acc)))
            (dedup (map fst ps)))%list.
Proof.
  revert acc. induction ps as [ | [k v] ps IH]; intros acc; simpl.
  - rewrite app_nil_r. reflexivity.
  - rewrite IH, dict_set_keys.
    destruct (existsb (String.eqb k) (map fst acc)) eqn:Hk; simpl.
    + f_equal. rewrite filter_twice. apply filter_ext_in. intros x _.
      destruct (String.eqb_spec x k) as [-> | _]; simpl; [ | reflexivity ].
      rewrite Hk. reflexivity.
    + rewrite <- app_assoc. simpl. f_equal. f_equal.
      rewrite filter_twice. apply filter_ext_in. intros x _.
      rewrite existsb_app. simpl. rewrite orb_false_r.
      rewrite (String.eqb_sym x k), negb_orb.
      destruct (String.eqb_spec k x) as [-> | _]; simpl.
      * rewrite andb_false_r. reflexivity.
      * rewrite andb_true_r. reflexivity.
Qed.

Lemma fold_dict_set_get {V : Type} (ps acc : list (string * V)) (k : string) :
  dict_get (fold_left (fun d kv => dict_set d (fst kv) (snd kv)) ps acc) k
  = match last_value ps k with
    | Some v => Some v
    | None => dict_get acc k
    end.
Proof.
  revert acc. induction ps as [ | [k' v] ps IH]; intros acc; simpl.
  - reflexivity.
  - rewrite IH, dict_get_set.
    destruct (last_value ps k); [ reflexivity | ].
    destruct (k' =? k); reflexivity.
Qed.

Lemma filter_all {A : Type} (l : list A) : filter (fun _ => true) l = l.
Proof.
  induction l as [ | a l IH]; simpl; [ reflexivity | rewrite IH; reflexivity ].
Qed.

(** Building a dict from pairs, as [json.loads] does for an object and as
    repeated assignment does: the keys are the names in the order of their
    first occurrence, each once, and each key holds the value of the last
    pair of that name. *)
Lemma dict_of_pairs_first_place_last_value {V : Type} (ps : list (string * V)) :
  map fst (dict_of_pairs ps) = dedup (map fst ps)
  /\ NoDup (map fst (dict_of_pairs ps))
  /\ forall k, dict_get (dict_of_pairs ps) k = last_value ps k.
Proof.
  assert (Hkeys : map fst (dict_of_pairs ps) = dedup (map fst ps)).
  { unfold dict_of_pairs. rewrite fold_dict_set_keys. simpl. apply filter_all. }
  split; [ exact Hkeys | ]. split.
  - rewrite Hkeys. apply dedup_NoDup.
  - intros k. unfold dict_of_pairs. rewrite fold_dict_set_get.
    destruct (last_value ps k); reflexivity.
Qed.

Lemma last_value_map {V W : Type} (f : V -> W) (ps : list (string * V)) (k : string) :
  last_value (map (fun kv => (fst kv, f (snd kv))) ps) k
  = option_map f (last_value ps k).
Proof.
  induction ps as [ | [k' v] ps IH]; simpl.
  - reflexivity.
  - rewrite IH. destruct (last_value ps k); simpl; [ reflexivity | ].
    destruct (k' =? k); reflexivity.
Qed.

(** X2. What [json.loads] makes of an object, so of every dict that reaches
    the client: its keys are str, they are the member names in the order of
    their first occurrence, each once, and a name written more than once
    (as when the keys [1] and ["1"] of an argument are both written "1")
    holds the value of its last member. *)
Theorem json_loads_object_members (ms : list (string * Json)) :
  exists d : list (string * PyVal),
    json_loads (JObject ms) = PDict (map (fun kv => (KStr (fst kv), snd kv)) d)
    /\ map fst d = dedup (map fst ms)
    /\ NoDup (map fst d)
    /\ forall k, dict_get d k = option_map json_loads (last_value ms k).
Proof.
  exists (dict_of_pairs (map (fun kv => (fst kv, json_loads (snd kv))) ms)).
  destruct (dict_of_pairs_first_place_last_value
              (map (fun kv => (fst kv, json_loads (snd kv))) ms))
    as [Hkeys [Hnd Hget]].
  split; [ reflexivity | ]. split; [ | split ].
  - rewrite Hkeys, map_map. reflexivity.
  - exact Hnd.
  - intros k. rewrite Hget. apply last_value_map.
Qed.

(** ** The parameters are a fixed point of the serialization *)

Lemma NoDup_distinct (l : list string) : NoDup l -> distinct l = true.
Proof.
  induction 1 as [ | x l Hnotin _ IH]; simpl.
  - reflexivity.
  - rewrite IH, andb_true_r. apply negb_true_iff.
    destruct (existsb (String.eqb x) l) eqn:Hex; [ | reflexivity ].
    apply existsb_exists in Hex. destruct Hex as [y [Hin Heq]].
    apply String.eqb_eq in Heq. subst y. contradiction.
Qed.

Lemma json_loads_str_keyed : forall j : Json, str_keyed (json_loads j) = true.
Proof.
  fix IH 1. intros [ | b | z | r | s | l | ms]; simpl; try reflexivity.
  - induction l as [ | x l IHl]; simpl.
    + reflexivity.
    + rewrite IH, IHl. reflexivity.
  - apply andb_true_intro. split.
    + apply forallb_forall. intros [k v] Hin.
      apply in_map_iff in Hin. destruct Hin as [[k' v'] [E Hin]].
      simpl in E. inversion E; subst k v. simpl.
      assert (HF : Forall (fun kv : string * PyVal => str_keyed (snd kv) = true)
                     (dict_of_pairs (map (fun kv => (fst kv, json_loads (snd kv))) ms))).
      { unfold dict_of_pairs.
        apply (fold_dict_set_Forall (fun v => str_keyed v = true));
          [ | constructor ].
        clear Hin.
        induction ms as [ | [k0 j0] ms IHms]; simpl; constructor.
        + simpl. apply IH.
        + apply IHms. }
      rewrite Forall_forall in HF. apply (HF (k', v') Hin).
    + rewrite map_map. simpl. apply NoDup_distinct.
      apply (dict_of_pairs_first_place_last_value
               (map (fun kv => (fst kv, json_loads (snd kv))) ms)).
Qed.

Lemma jsonify_json_loads : forall j : Json, jsonify (json_loads j) = json_loads j.
Proof.
  fix IH 1. intros [ | b | z | r | s | l | ms]; simpl; try reflexivity.
  - f_equal. induction l as [ | x l IHl]; simpl.
    + reflexivity.
    + rewrite IH, IHl. reflexivity.
  - f_equal. rewrite map_map. simpl. apply map_ext_in. intros [k v] Hin. simpl.
    assert (HF : Forall (fun kv : string * PyVal => jsonify (snd kv) = snd kv)
                   (dict_of_pairs (map (fun kv => (fst kv, json_loads (snd kv))) ms))).
    { unfold dict_of_pairs.
      apply (fold_dict_set_Forall (fun v => jsonify v = v)); [ | constructor ].
      clear Hin.
      induction ms as [ | [k0 j0] ms IHms]; simpl; constructor.
      + simpl. apply IH.
      + apply IHms. }
    rewrite Forall_forall in HF. pose proof (HF (k, v) Hin) as E.
    simpl in E. rewrite E. reflexivity.
Qed.

Lemma dedup_NoDup_id (l : list string) : NoDup l -> dedup l = l.
Proof.
  induction 1 as [ | x l Hnotin _ IH]; simpl.
  - reflexivity.
  - rewrite IH. f_equal.
    rewrite (filter_ext_in (fun y => negb (y =? x)) (fun _ => true)).
    + apply filter_all.
    + intros y Hy. destruct (String.eqb_spec y x) as [-> | _];
        [ contradiction | reflexivity ].
Qed.

(** The encoder writes the keyword arguments as one object, a member per
    argument under the argument's name. *)
Lemma json_dumps_kwargs (kwargs : list (string * PyVal)) (j : Json) :
  json_dumps (kwargs_dict kwargs) = inr j ->
  exists ms, j = JObject ms /\ map fst ms = map fst kwargs.
Proof.
  unfold kwargs_dict. simpl. intros H.
  match type of H with
  | match ?t with _ => _ end = _ => destruct t as [e | ms] eqn:Ht; [ discriminate H | ]
  end.
  inversion H; subst j. clear H. exists ms. split; [ reflexivity | ].
  revert ms Ht. induction kwargs as [ | [k v] kwargs IH]; simpl; intros ms Ht.
  - inversion Ht. reflexivity.
  - destruct (json_dumps v) as [e | jv]; [ discriminate Ht | ].
    match type of Ht with
    | match ?t with _ => _ end = _ =>
        destruct t as [e | ms'] eqn:Ht'; [ discriminate Ht | ]
    end.
    inversion Ht; subst ms. simpl. rewrite (IH ms' eq_refl). reflexivity.
Qed.

(** X3. What the callable sends keeps the names of the keyword arguments, in
    their order, each once (all of them when they are pairwise different,
    as the names of keyword arguments are), and it can be sent again
    unchanged: serializing the parameters gives the same parameters. The
    first round trip is the only one that changes anything. *)
Theorem parameters_keep_names_and_reserialize
  (kwargs : list (string * PyVal)) (args : PyVal) :
  args_json_of kwargs = inr args ->
  exists kw,
    args = kwargs_dict kw
    /\ map fst kw = dedup (map fst kwargs)
    /\ (NoDup (map fst kwargs) -> map fst kw = map fst kwargs)
    /\ args_json_of kw = inr args.
Proof.
  unfold args_json_of. intros H.
  destruct (json_dumps (kwargs_dict kwargs)) as [e | j] eqn:Hj; [ discriminate H | ].
  inversion H; subst args. clear H.
  destruct (json_dumps_kwargs _ _ Hj) as [ms [-> Hnames]].
  exists (dict_of_pairs (map (fun kv => (fst kv, json_loads (snd kv))) ms)).
  destruct (dict_of_pairs_first_place_last_value
              (map (fun kv => (fst kv, json_loads (snd kv))) ms))
    as [Hkeys [Hnd _]].
  rewrite map_map in Hkeys. simpl in Hkeys.
  assert (Hk : map fst (dict_of_pairs (map (fun kv => (fst kv, json_loads (snd kv))) ms))
               = dedup (map fst kwargs)).
  { rewrite Hkeys. rewrite <- Hnames. reflexivity. }
  split; [ reflexivity | ]. split; [ exact Hk | ]. split.
  - intros Hnodup. rewrite Hk. apply dedup_NoDup_id. exact Hnodup.
  - assert (E : kwargs_dict (dict_of_pairs
                               (map (fun kv => (fst kv, json_loads (snd kv))) ms))
                = json_loads (JObject ms)) by reflexivity.
    rewrite E.
    destruct (json_roundtrip_jsonify _ (json_loads_str_keyed (JObject ms)))
      as [j' [Hj' Ej']].
    rewrite Hj', Ej'. rewrite jsonify_json_loads. reflexivity.
Qed.

Lemma parameters_keep_names_and_reserialize_witness :
  exists kw,
    PDict [(KStr "day", PStr "2024-01-01"); (KStr "at", PList [PInt 1; PInt 2])]
    = kwargs_dict kw
    /\ map fst kw = ["day"; "at"]
    /\ args_json_of kw
       = inr (PDict [(KStr "day", PStr "2024-01-01");
                     (KStr "at", PList [PInt 1; PInt 2])]).
Proof.
  destruct (parameters_keep_names_and_reserialize
              [("day", PObj "2024-01-01"); ("at", PTuple [PInt 1; PInt 2])]
              (PDict [(KStr "day", PStr "2024-01-01");
                      (KStr "at", PList [PInt 1; PInt 2])]) eq_refl)
    as [kw [Hkw [Hnames [_ Hre]]]].
  exists kw. split; [ exact Hkw | ]. split; [ exact Hnames | exact Hre ].
Defined.

(** ** Every outcome of the converter *)

(** The converter, case by case. *)
Lemma convert_cases (S : Type) (gtn : string -> string)
  (client : option (BaseFunctionClient S))
  (function_name : option string) (function_info : option FunctionInfo)
  (w : World S) :
  uc_function_to_litellm_tool gtn client function_name function_info w
  = if truthy_str function_name && truthy_info function_info
    then (inl (ValueError msg_only_one), w)
    else
      match validate_or_set_default_client client w with
      | (inl e, _) => (inl e, w)
      | (inr c, _) =>
          if truthy_str function_name then
            let n := match function_name with Some n => n | None => "" end in
            (match fst (get_function c n (server w)) with
             | inl e => inl e
             | inr fi => inr (built_tool gtn c n fi)
             end,
             mkWorld (snd (get_function c n (server w))) (default_client w)
               (log w ++ [GetFunction n]))
          else
            match function_info with
            | Some fi => (inr (built_tool gtn c (full_name fi) fi), w)
            | None => (inl (ValueError msg_either), w)
            end
      end.
Proof.
  destruct (truthy_str function_name) eqn:Hn.
  - destruct function_info as [fi | ]; simpl.
    + unfold uc_function_to_litellm_tool. rewrite Hn. reflexivity.
    + destruct (proj1 (truthy_str_true _) Hn) as [n [-> Hne]].
      destruct (validate_or_set_default_client client w) as [[e | c] w1] eqn:Hc.
      * pose proof (validate_or_set_default_client_world _ _ _ _ _ Hc) as ->.
        run_monad. rewrite Hn. simpl. rewrite Hc. reflexivity.
      * pose proof (validate_or_set_default_client_world _ _ _ _ _ Hc) as ->.
        apply (convert_by_name _ gtn _ _ _ _ Hc Hne).
  - simpl.
    destruct (validate_or_set_default_client client w) as [[e | c] w1] eqn:Hc.
    + pose proof (validate_or_set_default_client_world _ _ _ _ _ Hc) as ->.
      run_monad. rewrite Hn. simpl. rewrite Hc. reflexivity.
    + pose proof (validate_or_set_default_client_world _ _ _ _ _ Hc) as ->.
      destruct function_info as [fi | ].
      * apply (convert_by_descriptor _ gtn _ _ _ fi _ Hc Hn).
      * run_monad. rewrite Hn. simpl. rewrite Hc. reflexivity.
Qed.





(** X8. A conversion, whatever its outcome, leaves the default client as it
    was and reaches the catalog at most once, with [get_function] for the
    name it was given: it never executes a function and never lists. *)
Theorem conversion_reaches_catalog_at_most_once (S : Type) (gtn : string -> string)
  (client : option (BaseFunctionClient S))
  (function_name : option string) (function_info : option FunctionInfo)
  (w : World S) :
  default_client
    (snd (uc_function_to_litellm_tool gtn client function_name function_info w))
  = default_client w
  /\ (snd (uc_function_to_litellm_tool gtn client function_name function_info w) = w
      \/ exists n,
           function_name = Some n
           /\ log (snd (uc_function_to_litellm_tool gtn client function_name
                          function_info w))
              = (log w ++ [GetFunction n])%list).
Proof.
  rewrite convert_cases.
  destruct (truthy_str function_name && truthy_info function_info);
    [ simpl; auto | ].
  destruct (validate_or_set_default_client client w) as [[e | c] w1];
    [ simpl; auto | ].
  destruct (truthy_str function_name) eqn:Hn.
  - destruct (proj1 (truthy_str_true _) Hn) as [n [-> _]]. simpl.
    split; [ reflexivity | ]. right. exists n. auto.
  - destruct function_info; simpl; auto.
Qed.

(** ** The tool definition of a tool *)

(** X9. [to_dict] of a converted tool is a "function" tool definition that
    carries the tool's own name and description: the record and the
    definition handed to the LLM cannot disagree. *)
Theorem to_dict_agrees_with_tool (S : Type) (gtn : string -> string)
  (client : option (BaseFunctionClient S))
  (function_name : option string) (function_info : option FunctionInfo)
  (w w' : World S) (t : LiteLLMTool S) :
  uc_function_to_litellm_tool gtn client function_name function_info w = (inr t, w') ->
  td_type (to_dict t) = "function"
  /\ fd_name (td_function (to_dict t)) = name t
  /\ fd_description (td_function (to_dict t)) = description t.
Proof.
  intros H.
  destruct (convert_inv _ _ _ _ _ _ _ _ H)
    as [c [_ [[n [fi [_ [_ [_ [_ [-> _]]]]]]] | [fi [_ [_ [-> _]]]]]]];
    repeat split; reflexivity.
Qed.

Lemma to_dict_agrees_with_tool_witness :
  td_type (to_dict (built_tool Demo.get_tool_name Demo.client "catalog.schema.add"
                      Demo.add_info)) = "function"
  /\ fd_name (td_function (to_dict (built_tool Demo.get_tool_name Demo.client
                                      "catalog.schema.add" Demo.add_info)))
     = "catalog__schema__add"
  /\ fd_description (td_function (to_dict (built_tool Demo.get_tool_name Demo.client
                                             "catalog.schema.add" Demo.add_info)))
     = "adds two numbers".
Proof.
  exact (to_dict_agrees_with_tool nat Demo.get_tool_name (Some Demo.client)
           (Some "catalog.schema.add") None Demo.w_none
           (mkWorld 0%nat None [GetFunction "catalog.schema.add"])
           (built_tool Demo.get_tool_name Demo.client "catalog.schema.add"
              Demo.add_info) eq_refl).
Defined.

(** ** The wrapper changes the title only *)

(** X10. For every descriptor the model handed to the tool builder is a
    subclass of the generated model with the same properties and the same
    required fields; it is the generated model itself unless that is
    [BaseModel], and it is never [BaseModel]. *)
Theorem litellm_model_keeps_parameters (fi : FunctionInfo) :
  litellm_model fi <> BaseModel
  /\ issubclass (litellm_model fi) (generate_function_input_params_schema fi)
  /\ properties (model_json_schema (litellm_model fi))
     = properties (model_json_schema (generate_function_input_params_schema fi))
  /\ required (model_json_schema (litellm_model fi))
     = required (model_json_schema (generate_function_input_params_schema fi))
  /\ (if is_BaseModel (generate_function_input_params_schema fi)
      then title (model_json_schema (litellm_model fi)) = "BaseModelWrapper"
      else litellm_model fi = generate_function_input_params_schema fi).
Proof.
  unfold litellm_model.
  destruct (generate_function_input_params_schema fi) as [ | n fs | n base] eqn:Hg;
    simpl; repeat split; auto; discriminate.
Qed.

(** ** The exceptions and the effects of the callable *)




(** X5. The callable keeps nothing between calls. Two calls in a row, with
    arguments that serialize, reach the client twice, in order, whatever
    the first call returned or raised; the second runs on the state of the
    service the first one left. *)
Theorem callable_calls_client_every_time (S : Type) (c : BaseFunctionClient S)
  (function_name : string) (kwargs1 kwargs2 : list (string * PyVal))
  (args1 args2 : PyVal) (w : World S) :
  args_json_of kwargs1 = inr args1 ->
  args_json_of kwargs2 = inr args2 ->
  let w1 := snd (func c function_name kwargs1 w) in
  let w2 := snd (func c function_name kwargs2 w1) in
  server w1 = snd (execute_function c function_name args1 (server w))
  /\ log w2 = (log w ++ [ExecuteFunction function_name args1;
                         ExecuteFunction function_name args2])%list
  /\ fst (func c function_name kwargs2 w1)
     = match fst (execute_function c function_name args2 (server w1)) with
       | inl e => inl e
       | inr r => inr (to_json r)
       end.
Proof.
  intros H1 H2. unfold func, bind, lift, call, ret, raise.
  rewrite H1, H2.
  destruct (execute_function c function_name args1 (server w)) as [[e1 | r1] s1];
    simpl;
    destruct (execute_function c function_name args2 s1) as [[e2 | r2] s2];
    simpl; rewrite <- app_assoc; repeat split; reflexivity.
Qed.

Lemma callable_calls_client_every_time_witness :
  log (snd (func Demo.client "catalog.schema.ping" []
              (snd (func Demo.client "catalog.schema.ping" [] Demo.w_none))))
  = [ExecuteFunction "catalog.schema.ping" (PDict []);
     ExecuteFunction "catalog.schema.ping" (PDict [])]
  /\ fst (func Demo.client "catalog.schema.ping" []
            (snd (func Demo.client "catalog.schema.ping" [] Demo.w_none)))
     = inr ("{" ++ Demo.dq ++ "value" ++ Demo.dq ++ ": 1}").
Proof.
  destruct (callable_calls_client_every_time nat Demo.client "catalog.schema.ping"
              [] [] (PDict []) (PDict []) Demo.w_none eq_refl eq_refl)
    as [_ [Hlog Hres]].
  split; [ exact Hlog | exact Hres ].
Defined.

(** ** What a constructed toolkit holds *)

(** X11. A toolkit that [validate_toolkit] returns keeps the list of names it
    was given, which is not empty, and holds a client: the one supplied or,
    without one, the default configured when it was built. *)
Theorem validated_toolkit_has_client_and_names (S : Type) (gtn : string -> string)
  (self tk : UCFunctionToolkit S) (w w' : World S) :
  validate_toolkit gtn self w = (inr tk, w') ->
  function_names tk = function_names self
  /\ function_names self <> []
  /\ exists c,
       client tk = Some c
       /\ validate_or_set_default_client (client self) w = (inr c, w)
       /\ (forall c0, client self = Some c0 -> c = c0).
Proof.
  unfold validate_toolkit. unfold bind at 1.
  destruct (validate_or_set_default_client (client self) w) as [[e | c] w0] eqn:Hc;
    [ discriminate | ].
  pose proof (validate_or_set_default_client_world _ _ _ _ _ Hc) as ->.
  destruct (function_names self) as [ | n0 names0] eqn:Hnames; [ discriminate | ].
  unfold bind, ret.
  destruct (process_function_names (n0 :: names0) (tools_dict self) c
              (uc_function_to_litellm_tool gtn) w) as [[e | d] w1];
    [ discriminate | ].
  intros H. inversion H; subst. simpl.
  split; [ reflexivity | ]. split; [ discriminate | ].
  exists c. split; [ reflexivity | ]. split; [ reflexivity | ].
  intros c0 E. rewrite E in Hc. simpl in Hc. inversion Hc. reflexivity.
Qed.

Lemma validated_toolkit_has_client_and_names_witness :
  exists tk w',
    validate_toolkit Demo.get_tool_name
      (mkToolkit ["catalog.schema.add"] [] None) Demo.w_default = (inr tk, w')
    /\ function_names tk = ["catalog.schema.add"]
    /\ exists c, client tk = Some c.
Proof.
  destruct (validate_toolkit Demo.get_tool_name
              (mkToolkit ["catalog.schema.add"] [] None) Demo.w_default)
    as [[e | tk] w'] eqn:H.
  - vm_compute in H. discriminate H.
  - exists tk, w'. split; [ reflexivity | ].
    destruct (validated_toolkit_has_client_and_names nat Demo.get_tool_name
                _ tk Demo.w_default w' H) as [Hn [_ [c [Hc _]]]].
    split; [ exact Hn | exists c; exact Hc ].
Defined.
